(** * sec-insights chat backend: engine construction and streamed messaging

    A shallow embedding of [backend/app/chat/engine.py] and
    [backend/app/chat/messaging.py], followed by the properties of the
    index map, the chat history, the tool sets, the event translator and the
    streaming dispatcher.

    Layout: Part I holds the definitions (module [Py] for the Python
    primitives the two files rely on, [Engine] and [Messaging] for the two
    source files); Part II holds the lemmas and theorems. *)

From Stdlib Require Import Ascii String ZArith NArith List Bool Lia.
From Stdlib Require Import Permutation Sorted.
From stdpp Require Import base tactics list strings gmap pretty.

#[local] Set Warnings "-clear-no-such-hyp".

Local Open Scope string_scope.
Local Open Scope Z_scope.
Local Open Scope list_scope.

(* ===================================================================== *)
(** * Part I. Definitions                                                 *)
(* ===================================================================== *)

(** ** Python primitives *)

Module Py.

(** Exception classes that the two files raise, catch or let through. *)
Inductive exn : Type :=
| FileNotFoundError
| ValueError
| TypeError
| KeyError
| AttributeError
| HTTPError
| ClosedResourceError.

#[global] Instance exn_eq_dec : EqDecision exn.
Proof. solve_decision. Defined.

(** Outcome of a call: a value, or a raised exception. *)
Inductive result (A : Type) : Type :=
| Ok (a : A)
| Raise (e : exn).
Arguments Ok {A} a.
Arguments Raise {A} e.

Definition rbind {A B} (r : result A) (k : A → result B) : result B :=
  match r with
  | Ok a => k a
  | Raise e => Raise e
  end.

(** [str.isspace] on one character.  Characters are the code points below
    256; the whitespace ones are TAB..CR, FS..US, SPACE, NEL and NBSP. *)
Definition isspace (c : ascii) : bool :=
  let n := N_of_ascii c in
  ((9 <=? n) && (n <=? 13) || (28 <=? n) && (n <=? 32)
   || (n =? 133) || (n =? 160))%N.

Fixpoint lstrip (s : string) : string :=
  match s with
  | EmptyString => EmptyString
  | String c s' => if isspace c then lstrip s' else s
  end.

Fixpoint rstrip (s : string) : string :=
  match s with
  | EmptyString => EmptyString
  | String c s' =>
      match rstrip s' with
      | EmptyString => if isspace c then EmptyString else String c EmptyString
      | r => String c r
      end
  end.

(** [s.strip()] *)
Definition strip (s : string) : string := rstrip (lstrip s).

(** Truth value of a string: [bool(s)]. *)
Definition truthy (s : string) : bool :=
  match s with EmptyString => false | _ => true end.

(** [s[:n]] for a non-negative [n]. *)
Fixpoint str_take (n : nat) (s : string) : string :=
  match n, s with
  | S n', String c s' => String c (str_take n' s')
  | _, _ => EmptyString
  end.

(** A [dict] with string keys.  Python dictionaries keep insertion order
    and [items()] walks it, so the model is an association list in which
    every key occurs once: assignment to an existing key replaces the value
    where it stands, assignment to a new key appends. *)
Definition dict (V : Type) : Type := list (string * V).

Fixpoint dict_set {V} (k : string) (v : V) (d : dict V) : dict V :=
  match d with
  | [] => [(k, v)]
  | (k', v') :: d' =>
      if decide (k' = k) then (k', v) :: d' else (k', v') :: dict_set k v d'
  end.

Fixpoint dict_get {V} (k : string) (d : dict V) : option V :=
  match d with
  | [] => None
  | (k', v') :: d' => if decide (k' = k) then Some v' else dict_get k d'
  end.

(** [k in d] *)
Definition dict_mem {V} (k : string) (d : dict V) : bool :=
  match dict_get k d with Some _ => true | None => false end.

(** [d[k]], raising [KeyError] on a missing key. *)
Definition dict_item {V} (k : string) (d : dict V) : result V :=
  match dict_get k d with Some v => Ok v | None => Raise KeyError end.

(** [dict(pairs)] and dictionary comprehensions: successive assignments. *)
Definition dict_of_pairs {V} (l : list (string * V)) : dict V :=
  fold_left (λ d kv, dict_set kv.1 kv.2 d) l [].

Definition dict_keys {V} (d : dict V) : list string := d.*1.

Definition dict_keyset {V} (d : dict V) : gset string :=
  list_to_set (dict_keys d).

(** [sorted(l, key=key)]: Python's sort is stable, and a stable sort has one
    possible result, which insertion from the right computes: an element
    goes before the first one whose key is not smaller. *)
Section Sorted.
Context {A : Type} (key : A → Z).

Fixpoint insert_by (x : A) (l : list A) : list A :=
  match l with
  | [] => [x]
  | y :: l' => if key x <=? key y then x :: l else y :: insert_by x l'
  end.

Definition sorted (l : list A) : list A := foldr insert_by [] l.
End Sorted.

(** [str(uuid)]: 32 lower-case hexadecimal digits of the 128-bit value,
    grouped 8-4-4-4-12. *)
Definition hex_digit (n : N) : ascii :=
  nth (N.to_nat n)
      (list_ascii_of_string "0123456789abcdef") "0"%char.

Definition hex_digits (u : N) (first len : nat) : string :=
  string_of_list_ascii
    (map (λ i, hex_digit (N.land (N.shiftr u (4 * N.of_nat (31 - i))) 15))
         (seq first len)).

Definition uuid_str (u : N) : string :=
  hex_digits u 0 8 +:+ "-" +:+ hex_digits u 8 4 +:+ "-" +:+
  hex_digits u 12 4 +:+ "-" +:+ hex_digits u 16 4 +:+ "-" +:+
  hex_digits u 20 12.

End Py.

Import Py.


(** ** [backend/app/chat/engine.py] *)

Module Engine.

(** Calls into storage, the network and llama_index change the world and
    may raise: a computation takes the world and returns an outcome with
    the world after it. *)
Definition M (W A : Type) : Type := W → result A * W.

Definition ret {W A} (a : A) : M W A := λ w, (Ok a, w).

Definition bind {W A B} (m : M W A) (k : A → M W B) : M W B :=
  λ w, match m w with
       | (Ok a, w') => k a w'
       | (Raise e, w') => (Raise e, w')
       end.

(** [try: m except e: h] *)
Definition try_except {W A} (m : M W A) (e : exn) (h : M W A) : M W A :=
  λ w, match m w with
       | (Raise e', w') => if decide (e' = e) then h w' else (Raise e', w')
       | r => r
       end.

(** A pure step that may raise. *)
Definition lift {W A} (r : result A) : M W A := λ w, (r, w).

Declare Scope eng_scope.
Delimit Scope eng_scope with eng.
Notation "x <- m ;; k" := (bind m (λ x, k))
  (at level 100, m at next level, right associativity) : eng_scope.
Notation "m ;;; k" := (bind m (λ _, k))
  (at level 100, right associativity) : eng_scope.

(** Modelled from the spec: [app.models.db.MessageRoleEnum] is missing from
    the sources; a message's role is user or assistant. *)
Inductive MessageRoleEnum : Type := user | assistant.

(** Modelled from the spec: [app.models.db.MessageStatusEnum] is missing
    from the sources; a message's status is success, failure or pending. *)
Inductive MessageStatusEnum : Type := SUCCESS | FAILURE | PENDING.

#[global] Instance MessageRoleEnum_eq_dec : EqDecision MessageRoleEnum.
Proof. solve_decision. Defined.
#[global] Instance MessageStatusEnum_eq_dec : EqDecision MessageStatusEnum.
Proof. solve_decision. Defined.

(** llama_index's [MessageRole]. *)
Inductive MessageRole : Type := SYSTEM | USER | ASSISTANT | FUNCTION | TOOL.

(** [app.schema.Message]; [created_at] is a point on the time line. *)
Record Message : Type := {
  role : MessageRoleEnum;
  content : string;
  status : MessageStatusEnum;
  created_at : Z
}.

(** llama_index's [ChatMessage(content=..., role=...)]. *)
Record ChatMessage : Type := {
  chat_content : string;
  chat_role : MessageRole
}.

(** Modelled from the spec: [app.schema.SecDocumentMetadata] is missing from
    the sources; the SEC sub-fields of a document are ticker, company name,
    filing type, fiscal year and an optional quarter. *)
Record SecDocumentMetadata : Type := {
  company_name : string;
  company_ticker : string;
  doc_type : string;
  year : Z;
  quarter : option Z
}.

(** [app.schema.Document].  [id] is the 128-bit UUID; [metadata_map] holds
    the entry under [DocumentMetadataKeysEnum.SEC_DOCUMENT] when there is
    one. *)
Record Document : Type := {
  id : N;
  url : string;
  metadata_map : option SecDocumentMetadata
}.

Record Conversation : Type := {
  documents : list Document;
  messages : list Message
}.

(** [app.chat.constants.DB_DOC_ID_KEY], the metadata key that
    [messaging.py] reads back from the source nodes. *)
Definition DB_DOC_ID_KEY : string := "db_document_id".

Definition get_chat_history (chat_messages : list Message)
  : list ChatMessage :=
  let chat_messages :=
    List.filter
      (λ m, truthy (strip (content m)) && bool_decide (status m = SUCCESS))
      chat_messages in
  let chat_messages := sorted created_at chat_messages in
  map (λ message,
         {| chat_content := content message;
            chat_role := if decide (role message = assistant)
                         then ASSISTANT else USER |})
      chat_messages.

(** What the file calls but does not define. *)
Class Collaborators : Type := {
  World : Type;
  VectorStore : Type;
  StorageContext : Type;
  VectorStoreIndex : Type;
  LlamaIndexDocument : Type;
  get_vector_store_singleton : M World VectorStore;
  (** the cached [StorageContext.from_defaults(persist_dir, ...)] *)
  get_storage_context : VectorStore → M World StorageContext;
  (** [StorageContext.from_defaults], with or without a [persist_dir] *)
  StorageContext_from_defaults : bool → VectorStore → M World StorageContext;
  StorageContext_persist : StorageContext → M World unit;
  load_indices_from_storage :
    StorageContext → list string → M World (list VectorStoreIndex);
  requests_get : string → M World string;
  PDFReader_load_data : string → string → M World (list LlamaIndexDocument);
  docstore_add_documents :
    StorageContext → list LlamaIndexDocument → M World unit;
  VectorStoreIndex_from_documents :
    list LlamaIndexDocument → StorageContext → M World VectorStoreIndex;
  set_index_id : VectorStoreIndex → string → VectorStoreIndex;
  index_storage_context : VectorStoreIndex → StorageContext;
  (** [app.chat.utils.build_title_for_document] *)
  build_title_for_document : Document → string;
  (** the description given to a document's API tool in [app.chat.tools] *)
  api_tool_description : Document → string
}.

Section WithCollaborators.
Context `{C : Collaborators}.
Local Open Scope eng_scope.

Definition fetch_and_read_document (document : Document)
  : M World (list LlamaIndexDocument) :=
  r <- requests_get (url document) ;;
  PDFReader_load_data r (uuid_str (id document)).

Definition build_description_for_document (document : Document) : string :=
  match metadata_map document with
  | Some sec_metadata =>
      let time_period :=
        match quarter sec_metadata with
        | Some q =>
            if decide (q = 0) then pretty (year sec_metadata)
            else pretty (year sec_metadata) +:+ " Q" +:+ pretty q
        | None => pretty (year sec_metadata)
        end in
      "A SEC " +:+ doc_type sec_metadata
      +:+ " filing describing the financials of "
      +:+ company_name sec_metadata
      +:+ " (" +:+ company_ticker sec_metadata +:+ ") for the "
      +:+ time_period +:+ " time period."
  | None =>
      "A document containing useful information that the user pre-selected to discuss with the assistant."
  end.

(** The [for doc in documents] loop of the rebuild branch, on the
    dictionary built so far. *)
Fixpoint rebuild_indices (storage_context : StorageContext)
    (documents : list Document) (doc_id_to_index : dict VectorStoreIndex)
  : M World (dict VectorStoreIndex) :=
  match documents with
  | [] => ret doc_id_to_index
  | doc :: rest =>
      llama_index_docs <- fetch_and_read_document doc ;;
      docstore_add_documents storage_context llama_index_docs ;;;
      index <- VectorStoreIndex_from_documents llama_index_docs
                 storage_context ;;
      let index := set_index_id index (uuid_str (id doc)) in
      StorageContext_persist (index_storage_context index) ;;;
      rebuild_indices storage_context rest
        (dict_set (uuid_str (id doc)) index doc_id_to_index)
  end.

Definition build_doc_id_to_index_map (documents : list Document)
  : M World (dict VectorStoreIndex) :=
  vector_store <- get_vector_store_singleton ;;
  try_except
    (storage_context <-
       try_except (get_storage_context vector_store) FileNotFoundError
         (storage_context <-
            StorageContext_from_defaults false vector_store ;;
          StorageContext_persist storage_context ;;;
          ret storage_context) ;;
     let index_ids := map (λ doc, uuid_str (id doc)) documents in
     indices <- load_indices_from_storage storage_context index_ids ;;
     ret (dict_of_pairs (zip index_ids indices)))
    ValueError
    (storage_context <- StorageContext_from_defaults true vector_store ;;
     rebuild_indices storage_context documents []).

Record ToolMetadata : Type := {
  name : string;
  description : string
}.

(** [index.as_retriever(similarity_top_k=..., filters=...)] with one
    exact-match filter. *)
Record Retriever : Type := {
  retriever_index : VectorStoreIndex;
  similarity_top_k : nat;
  filter_key : string;
  filter_value : string
}.

Inductive LeafQueryEngine : Type :=
| CitationQueryEngine (retriever : Retriever) (citation_chunk_size : nat)
| ApiQueryEngine (document : Document).

(** A per-document [QueryEngineTool]. *)
Record QueryEngineTool : Type := {
  query_engine : LeafQueryEngine;
  metadata : ToolMetadata
}.

(** A top-level [QueryEngineTool] around a [SubQuestionQueryEngine]. *)
Record SubQuestionTool : Type := {
  query_engine_tools : list QueryEngineTool;
  sub_metadata : ToolMetadata
}.

(** The fields of the [OpenAIAgent] that the file decides itself; the
    system prompt is [SYSTEM_MESSAGE], a constant missing from the
    sources, formatted with [doc_titles] and the current date. *)
Record OpenAIAgent : Type := {
  tools : list SubQuestionTool;
  chat_history : list ChatMessage;
  doc_titles : string;
  max_function_calls : nat
}.

(** Modelled from the spec: [app.chat.tools.get_api_query_engine_tool] is
    missing from the sources; the tool of a document with structured
    metadata is keyed by the same naming scheme, the document's id. *)
Definition get_api_query_engine_tool (document : Document)
  : QueryEngineTool :=
  {| query_engine := ApiQueryEngine document;
     metadata := {| name := uuid_str (id document);
                    description := api_tool_description document |} |}.

(** The loop over [doc_id_to_index.items()]. *)
Fixpoint vector_query_engine_tools
    (items : list (string * VectorStoreIndex)) (id_to_doc : dict Document)
  : result (list QueryEngineTool) :=
  match items with
  | [] => Ok []
  | (doc_id, index) :: rest =>
      let retriever :=
        {| retriever_index := index; similarity_top_k := 3;
           filter_key := DB_DOC_ID_KEY; filter_value := doc_id |} in
      let query_engine := CitationQueryEngine retriever 512 in
      rbind (dict_item doc_id id_to_doc) (λ doc,
      rbind (vector_query_engine_tools rest id_to_doc) (λ tl,
      Ok ({| query_engine := query_engine;
             metadata :=
               {| name := doc_id;
                  description := build_description_for_document doc |} |}
          :: tl)))
  end.

(** The loop over [conversation.documents] that keeps the documents with
    a [SEC_DOCUMENT] entry. *)
Definition api_query_engine_tools (documents : list Document)
  : list QueryEngineTool :=
  map get_api_query_engine_tool
    (List.filter (λ doc, bool_decide (is_Some (metadata_map doc)))
       documents).

Definition newline : string := String (ascii_of_nat 10) EmptyString.

(** [sep.join(l)] *)
Fixpoint join (sep : string) (l : list string) : string :=
  match l with
  | [] => EmptyString
  | [s] => s
  | s :: rest => s +:+ sep +:+ join sep rest
  end.

Definition get_chat_engine (conversation : Conversation)
  : M World OpenAIAgent :=
  doc_id_to_index <- build_doc_id_to_index_map (documents conversation) ;;
  let id_to_doc :=
    dict_of_pairs
      (map (λ doc, (uuid_str (id doc), doc)) (documents conversation)) in
  vector_tools <- lift (vector_query_engine_tools doc_id_to_index
                          id_to_doc) ;;
  let api_tools := api_query_engine_tools (documents conversation) in
  let top_level_sub_tools :=
    [ {| query_engine_tools := vector_tools;
         sub_metadata :=
           {| name := "qualitative_question_engine";
              description :=
                "A query engine that can answer qualitative questions about a set of SEC financial documents that the user pre-selected for the conversation."
                +:+ newline +:+
                "Any questions about company-related headwinds, tailwinds, risks, sentiments, or administrative information should be asked here." |} |};
      {| query_engine_tools := api_tools;
         sub_metadata :=
           {| name := "quantitative_question_engine";
              description :=
                "A query engine that can answer quantitative questions about a set of SEC financial documents that the user pre-selected for the conversation."
                +:+ newline +:+
                "Any questions about company-related financials or other metrics should be asked here." |} |} ] in
  let chat_history := get_chat_history (messages conversation) in
  let doc_titles :=
    match documents conversation with
    | [] => "No documents selected."
    | docs => join newline
                (map (λ doc, "- " +:+ build_title_for_document doc) docs)
    end in
  ret {| tools := top_level_sub_tools;
         chat_history := chat_history;
         doc_titles := doc_titles;
         max_function_calls := 3 |}.

End WithCollaborators.

End Engine.

(** ** [backend/app/chat/messaging.py] *)

Module Messaging.

(** Payload values are [Any]: the values the file takes apart are [None],
    booleans, integers, strings, lists, string-keyed dictionaries and
    objects, an object being its attribute table. *)
#[local] Unset Elimination Schemes.
Inductive PyVal : Type :=
| PNone
| PBool (b : bool)
| PInt (z : Z)
| PStr (s : string)
| PList (l : list PyVal)
| PDict (d : list (string * PyVal))
| PObj (attrs : list (string * PyVal)).
#[local] Set Elimination Schemes.

(** [hasattr(v, a)], for the attribute names the file asks for
    ([source_nodes], [response], [node], [metadata], [text]): none of them
    is an attribute of a built-in value. *)
Definition hasattr (v : PyVal) (a : string) : bool :=
  match v with
  | PObj attrs => dict_mem a attrs
  | _ => false
  end.

(** [v.a] *)
Definition getattr (v : PyVal) (a : string) : result PyVal :=
  match v with
  | PObj attrs =>
      match dict_get a attrs with
      | Some x => Ok x
      | None => Raise AttributeError
      end
  | _ => Raise AttributeError
  end.

(** [for x in v]: the elements walked, or [TypeError] when [v] is not
    iterable. *)
Definition py_iter (v : PyVal) : result (list PyVal) :=
  match v with
  | PList l => Ok l
  | PStr s =>
      Ok (map (λ c, PStr (String c EmptyString)) (list_ascii_of_string s))
  | PDict d => Ok (map PStr (dict_keys d))
  | _ => Raise TypeError
  end.

Definition is_str (k : string) (v : PyVal) : bool :=
  match v with
  | PStr s => bool_decide (s = k)
  | _ => false
  end.

(** [k in v] for a string [k]: key of a dictionary, element of a list,
    substring of a string. *)
Definition py_contains (k : string) (v : PyVal) : result bool :=
  match v with
  | PDict d => Ok (dict_mem k d)
  | PList l => Ok (existsb (is_str k) l)
  | PStr s =>
      Ok (match String.index 0 k s with Some _ => true | None => false end)
  | _ => Raise TypeError
  end.

(** [v[k]] for a string [k] *)
Definition py_getitem (v : PyVal) (k : string) : result PyVal :=
  match v with
  | PDict d => dict_item k d
  | _ => Raise TypeError
  end.

Definition digit_of (c : ascii) : option Z :=
  let n := N_of_ascii c in
  if ((48 <=? n) && (n <=? 57))%N then Some (Z.of_N (n - 48)) else None.

(** Decimal digits, single underscores allowed between two digits. *)
Fixpoint parse_digits (s : string) (acc : Z) (after_digit : bool)
  : option Z :=
  match s with
  | EmptyString => if after_digit then Some acc else None
  | String c s' =>
      if bool_decide (c = "_"%char) then
        if after_digit then parse_digits s' acc false else None
      else
        match digit_of c with
        | Some d => parse_digits s' (10 * acc + d) true
        | None => None
        end
  end.

(** [int(s)] for a string: surrounding whitespace, an optional sign,
    ASCII decimal digits. *)
Definition int_of_str (s : string) : option Z :=
  match strip s with
  | String c r =>
      if bool_decide (c = "+"%char) then parse_digits r 0 false
      else if bool_decide (c = "-"%char)
           then Z.opp <$> parse_digits r 0 false
           else parse_digits (String c r) 0 false
  | EmptyString => None
  end.

(** [int(v)] *)
Definition py_int (v : PyVal) : result Z :=
  match v with
  | PInt z => Ok z
  | PBool b => Ok (if b then 1 else 0)
  | PStr s =>
      match int_of_str s with
      | Some z => Ok z
      | None => Raise ValueError
      end
  | _ => Raise TypeError
  end.

(** [v[:n]] *)
Definition py_slice_to (n : nat) (v : PyVal) : result PyVal :=
  match v with
  | PStr s => Ok (PStr (str_take n s))
  | PList l => Ok (PList (take n l))
  | _ => Raise TypeError
  end.

(** llama_index's [CBEventType]. *)
Inductive CBEventType : Type :=
| CHUNKING | NODE_PARSING | EMBEDDING | LLM | QUERY | RETRIEVE | SYNTHESIZE
| TREE | SUB_QUESTION | TEMPLATING | FUNCTION_CALL | RERANKING | EXCEPTION
| AGENT_STEP.

#[global] Instance CBEventType_eq_dec : EqDecision CBEventType.
Proof. solve_decision. Defined.

(** llama_index's [EventPayload] members used as payload keys. *)
Module EventPayload.
Definition RESPONSE : string := "response".
Definition SUB_QUESTION : string := "sub_question".
Definition FUNCTION_OUTPUT : string := "function_output".
End EventPayload.

Import Engine.

(** What the file uses but does not define. *)
Class Externals `{C : Collaborators} : Type := {
  (** [str(v)] of a value that is neither [None], a boolean, an integer
      nor a string: the object's own [__str__] *)
  obj_str : PyVal → string;
  (** [SubProcessMetadataKeysEnum.SUB_QUESTION.value] *)
  SUB_QUESTION_KEY : string;
  (** [schema.QuestionAnswerPair.from_sub_question_answer_pair(v).dict()] *)
  question_answer_pair_dict : PyVal → result PyVal;
  (** [app.models.db.MessageSubProcessSourceEnum], its lookup by member
      name, and the member the dispatcher sends first *)
  MessageSubProcessSourceEnum : Type;
  source_by_name : CBEventType → option MessageSubProcessSourceEnum;
  CONSTRUCTED_QUERY_ENGINE : MessageSubProcessSourceEnum;
  (** [chat_engine.astream_chat(message)] and the fragments its
      [async_response_gen()] goes on to yield *)
  astream_chat : OpenAIAgent → string → M World (list string)
}.

Section WithExternals.
Context `{X : Externals}.

(** [str(v)] *)
Definition py_str (v : PyVal) : string :=
  match v with
  | PStr s => s
  | PNone => "None"
  | PBool true => "True"
  | PBool false => "False"
  | PInt z => pretty z
  | _ => obj_str v
  end.

Record StreamedMessage : Type := {
  content : string
}.

Record StreamedMessageSubProcess : Type := {
  source : MessageSubProcessSourceEnum;
  has_ended : bool;
  event_id : string;
  metadata_map : option (dict PyVal)
}.

(** What travels on the send stream. *)
Inductive Item : Type :=
| Message (m : StreamedMessage)
| SubProcess (p : StreamedMessageSubProcess).

Inductive LogRecord : Type :=
| LogDebug (msg : string)
| LogException (msg : string) (source : MessageSubProcessSourceEnum).

(** The send stream with what went through it, the log, and the
    exceptions of callback tasks, which nobody awaits. *)
Record State : Type := {
  _closed : bool;
  sent : list Item;
  log : list LogRecord;
  task_exceptions : list exn
}.

Definition close (st : State) : State :=
  {| _closed := true; sent := sent st; log := log st;
     task_exceptions := task_exceptions st |}.

Definition logger (r : LogRecord) (st : State) : State :=
  {| _closed := _closed st; sent := sent st; log := log st ++ [r];
     task_exceptions := task_exceptions st |}.

(** [send_nowait]: a closed send stream refuses with
    [ClosedResourceError]. *)
Definition send_nowait (item : Item) (st : State) : result unit * State :=
  if _closed st then (Raise ClosedResourceError, st)
  else (Ok tt,
        {| _closed := false; sent := sent st ++ [item]; log := log st;
           task_exceptions := task_exceptions st |}).

(** One pass of the body of [for node in response.source_nodes]:
    the citation the node adds, if any. *)
Definition citation_of_node (node : PyVal) : result (option PyVal) :=
  if hasattr node "node" then
    rbind (getattr node "node") (λ inner,
    if hasattr inner "metadata" then
      rbind (getattr inner "metadata") (λ metadata,
      rbind (py_contains "db_document_id" metadata) (λ has_id,
      rbind (if has_id then py_contains "page_label" metadata
             else Ok false) (λ has_page,
      if has_id && has_page then
        let citation :=
          rbind (py_getitem metadata "db_document_id") (λ document_id,
          rbind (py_getitem metadata "page_label") (λ page_label,
          rbind (py_int page_label) (λ page_number,
          rbind (if hasattr inner "text"
                 then rbind (getattr inner "text") (py_slice_to 200)
                 else Ok (PStr "")) (λ text,
          Ok (PDict [("document_id", document_id);
                     ("page_number", PInt page_number);
                     ("text", text)]))))) in
        match citation with
        | Ok c => Ok (Some c)
        | Raise ValueError | Raise TypeError => Ok None
        | Raise e => Raise e
        end
      else Ok None)))
    else Ok None)
  else Ok None.

Fixpoint extract_citations (nodes : list PyVal) (citations : list PyVal)
  : result (list PyVal) :=
  match nodes with
  | [] => Ok citations
  | node :: rest =>
      rbind (citation_of_node node) (λ c,
      extract_citations rest
        (match c with Some c => citations ++ [c] | None => citations end))
  end.

Definition placeholder_question : string :=
  "What are the main business focus areas?".

Definition synthesized (answer : string) (citations : list PyVal)
  : dict PyVal :=
  [("sub_questions",
    PList [PDict [("question", PStr placeholder_question);
                  ("answer", PStr answer);
                  ("citations", PList citations)]])].

Definition get_metadata_from_event (event_type : CBEventType)
    (payload : option (dict PyVal)) (is_start_event : bool)
  : result (dict PyVal) :=
  match payload with
  | None => Raise TypeError
  | Some payload =>
      if dict_mem EventPayload.RESPONSE payload then
        let response :=
          default PNone (dict_get EventPayload.RESPONSE payload) in
        if hasattr response "source_nodes" && hasattr response "response"
        then
          rbind (getattr response "source_nodes") (λ source_nodes,
          rbind (py_iter source_nodes) (λ nodes,
          rbind (extract_citations nodes []) (λ citations,
          match citations with
          | [] => Ok []
          | _ =>
              rbind (getattr response "response") (λ r,
              Ok (synthesized (py_str r) citations))
          end)))
        else Ok []
      else if bool_decide (event_type = SUB_QUESTION)
              && dict_mem EventPayload.SUB_QUESTION payload then
        rbind (dict_item EventPayload.SUB_QUESTION payload) (λ sub_q,
        rbind (question_answer_pair_dict sub_q) (λ d,
        Ok [(SUB_QUESTION_KEY, d)]))
      else if bool_decide (event_type = FUNCTION_CALL)
              && dict_mem EventPayload.FUNCTION_OUTPUT payload then
        match default PNone
                (dict_get EventPayload.FUNCTION_OUTPUT payload) with
        | PStr response_str => Ok (synthesized response_str [])
        | _ => Ok []
        end
      else Ok []
  end.

(** [closed_meanwhile] tells whether the send stream gets closed while
    the coroutine is suspended in [await self._send_chan.send(...)],
    after its test of [_closed] and before the item is handed over. *)
Definition async_on_event (event_type : CBEventType)
    (payload : option (dict PyVal)) (event_id : string)
    (is_start_event : bool) (closed_meanwhile : bool) (st : State)
  : result unit * State :=
  match get_metadata_from_event event_type payload is_start_event with
  | Raise e => (Raise e, st)
  | Ok metadata_map =>
      let metadata_map :=
        match metadata_map with [] => None | m => Some m end in
      match source_by_name event_type with
      | None => (Raise KeyError, st)
      | Some source =>
          if _closed st then
            (Ok tt,
             logger (LogDebug
               "Received event after send channel closed. Ignoring.") st)
          else
            let st := if closed_meanwhile then close st else st in
            match send_nowait
                    (SubProcess {| source := source;
                                   metadata_map := metadata_map;
                                   event_id := event_id;
                                   has_ended := negb is_start_event |})
                    st with
            | (Raise ClosedResourceError, st') =>
                (Ok tt,
                 logger (LogException
                   "Tried sending SubProcess event %s after channel was closed"
                   source) st')
            | r => r
            end
      end
  end.

(** [asyncio.create_task(coro)]: the task runs on its own and an
    exception it raises stays with it. *)
Definition create_task (coro : State → result unit * State) (st : State)
  : State :=
  match coro st with
  | (Ok _, st') => st'
  | (Raise e, st') =>
      {| _closed := _closed st'; sent := sent st'; log := log st';
         task_exceptions := task_exceptions st' ++ [e] |}
  end.

Definition on_event_start (event_type : CBEventType)
    (payload : option (dict PyVal)) (event_id : string)
    (closed_meanwhile : bool) : State → State :=
  create_task
    (async_on_event event_type payload event_id true closed_meanwhile).

Definition on_event_end (event_type : CBEventType)
    (payload : option (dict PyVal)) (event_id : string)
    (closed_meanwhile : bool) : State → State :=
  create_task
    (async_on_event event_type payload event_id false closed_meanwhile).

(** What the rest of the program may do while [handle_chat_message] is
    suspended at an [await]: close the send stream, or deliver a
    lifecycle callback. *)
Inductive env_step : Type :=
| EnvClose
| EnvEventStart (event_type : CBEventType) (payload : option (dict PyVal))
    (event_id : string) (closed_meanwhile : bool)
| EnvEventEnd (event_type : CBEventType) (payload : option (dict PyVal))
    (event_id : string) (closed_meanwhile : bool).

Definition run_env_step (e : env_step) (st : State) : State :=
  match e with
  | EnvClose => close st
  | EnvEventStart t p i c => on_event_start t p i c st
  | EnvEventEnd t p i c => on_event_end t p i c st
  end.

Definition run_env (steps : list env_step) (st : State) : State :=
  fold_left (λ st e, run_env_step e st) steps st.

(** The environment's steps at each [await] of [handle_chat_message];
    [during_tokens] pairs, per fragment, the steps taken while the loop
    waits for the fragment with those taken while it is suspended in the
    send of the snapshot. *)
Record Schedule : Type := {
  during_get_chat_engine : list env_step;
  during_first_send : list env_step;
  during_astream_chat : list env_step;
  during_tokens : list (list env_step * list env_step);
  during_exhaustion : list env_step;
  during_fallback_send : list env_step
}.

Definition on_world {A} (m : M World A) : M (World * State) A :=
  λ ws, let '(r, w') := m ws.1 in (r, (w', ws.2)).

Definition on_chan {A} (f : State → result A * State)
  : M (World * State) A :=
  λ ws, let '(r, st') := f ws.2 in (r, (ws.1, st')).

(** [await m]: the environment moves, then [m] completes. *)
Definition await {A} (steps : list env_step) (m : M (World * State) A)
  : M (World * State) A :=
  λ ws, m (ws.1, run_env steps ws.2).

(** [await send_chan.send(item)] *)
Definition send (steps : list env_step) (item : Item)
  : M (World * State) unit :=
  await steps (on_chan (send_nowait item)).

Definition debug (msg : string) : M (World * State) unit :=
  on_chan (λ st, (Ok tt, logger (LogDebug msg) st)).

Local Open Scope eng_scope.

(** The [async for text in ...] loop; [None] is the [return] taken from
    inside the loop, [Some response_str] the exhaustion of the stream. *)
Fixpoint consume (tokens : list string)
    (steps : list (list env_step * list env_step)) (response_str : string)
  : M (World * State) (option string) :=
  match tokens with
  | [] => ret (Some response_str)
  | text :: rest =>
      let '(waiting, sending) := default ([], []) (head steps) in
      await waiting (ret tt) ;;;
      let response_str := response_str +:+ text in
      closed <- on_chan (λ st, (Ok (_closed st), st)) ;;
      if (closed : bool) then
        debug "Received streamed token after send channel closed. Ignoring." ;;;
        ret None
      else
        send sending (Message {| content := response_str |}) ;;;
        consume rest (tail steps) response_str
  end.

Definition fallback_message : string :=
  "Sorry, I either wasn't able to understand your question or I don't have an answer for it.".

Record UserMessageCreate : Type := {
  user_content : string
}.

Definition templated (user_message : UserMessageCreate) : string :=
  strip (newline +:+
         "Remember - if I have asked a relevant financial question, use your tools."
         +:+ newline +:+ newline +:+ user_content user_message
         +:+ newline +:+ "        ").

(** [async with send_chan: body]: the stream is closed on the way out,
    whatever the body did. *)
Definition async_with {A} (body : M (World * State) A)
  : M (World * State) A :=
  λ ws, let '(r, (w', st')) := body ws in (r, (w', close st')).

(** [uuid] is the value [uuid4()] draws. *)
Definition handle_chat_message (conversation : Conversation)
    (user_message : UserMessageCreate) (uuid : N) (sched : Schedule)
  : M (World * State) unit :=
  async_with
    (chat_engine <- await (during_get_chat_engine sched)
                      (on_world (get_chat_engine conversation)) ;;
     send (during_first_send sched)
       (SubProcess {| event_id := uuid_str uuid; has_ended := true;
                      source := CONSTRUCTED_QUERY_ENGINE;
                      metadata_map := None |}) ;;;
     debug "Engine received" ;;;
     tokens <- await (during_astream_chat sched)
                 (on_world (astream_chat chat_engine
                              (templated user_message))) ;;
     outcome <- consume tokens (during_tokens sched) "" ;;
     match outcome with
     | None => ret tt
     | Some response_str =>
         await (during_exhaustion sched) (ret tt) ;;;
         if bool_decide (strip response_str = "") then
           send (during_fallback_send sched)
             (Message {| content := fallback_message |})
         else ret tt
     end).

End WithExternals.

End Messaging.

(* ===================================================================== *)
(** * Part II. Properties                                                 *)
(* ===================================================================== *)

Import Engine.

(** ** Strings *)

(** Empty or made of whitespace only. *)
Definition blank (s : string) : bool :=
  forallb isspace (list_ascii_of_string s).

Lemma lstrip_blank s : blank (lstrip s) = blank s.
Proof.
  induction s as [|c s IH]; [done|].
  cbn [lstrip]. destruct (isspace c) eqn:Hc; [|done].
  rewrite IH. unfold blank. cbn. by rewrite Hc.
Qed.

Lemma rstrip_empty_iff s : rstrip s = EmptyString ↔ blank s = true.
Proof.
  unfold blank. induction s as [|c s IH]; [done|].
  cbn [rstrip list_ascii_of_string forallb].
  rewrite andb_true_iff, <- IH.
  destruct (rstrip s) eqn:Hr.
  - destruct (isspace c); [tauto|]. split; [done|]. by intros [? _].
  - split; [done|]. by intros [_ ?].
Qed.

Lemma strip_empty_iff s : strip s = EmptyString ↔ blank s = true.
Proof. unfold strip. by rewrite rstrip_empty_iff, lstrip_blank. Qed.

Lemma truthy_strip s : truthy (strip s) = negb (blank s).
Proof.
  destruct (blank s) eqn:Hb.
  - apply strip_empty_iff in Hb. by rewrite Hb.
  - destruct (strip s) eqn:Hs; [|done].
    apply strip_empty_iff in Hs. congruence.
Qed.

(** ** [sorted] *)

Section SortedFacts.
Context {A : Type} (key : A → Z).

Definition key_le (a b : A) : Prop := key a ≤ key b.

Lemma insert_by_perm x l : insert_by key x l ≡ₚ x :: l.
Proof.
  induction l as [|y l IH]; [done|]. cbn.
  destruct (key x <=? key y); [done|].
  rewrite IH. apply Permutation_swap.
Qed.

Lemma sorted_perm l : sorted key l ≡ₚ l.
Proof.
  induction l as [|x l IH]; [done|]. cbn.
  by rewrite insert_by_perm, IH.
Qed.

Lemma insert_by_sorted x l :
  StronglySorted key_le l → StronglySorted key_le (insert_by key x l).
Proof.
  induction 1 as [|y l Hl IH Hy]; cbn.
  - repeat constructor.
  - destruct (Z.leb_spec (key x) (key y)) as [Hxy|Hxy].
    + constructor; [by constructor|].
      constructor; [done|].
      eapply Forall_impl; [exact Hy|]. unfold key_le. intros; lia.
    + constructor; [done|].
      rewrite insert_by_perm. constructor; [unfold key_le; lia|done].
Qed.

Lemma sorted_sorted l : StronglySorted key_le (sorted key l).
Proof.
  induction l as [|x l IH]; cbn; [constructor|].
  by apply insert_by_sorted.
Qed.

(** Stability: elements with one key keep the order they came in. *)
Lemma insert_by_stable k x l :
  List.filter (λ y, bool_decide (key y = k)) (insert_by key x l)
  = List.filter (λ y, bool_decide (key y = k)) (x :: l).
Proof.
  induction l as [|y l IH]; [done|].
  cbn [insert_by]. destruct (Z.leb_spec (key x) (key y)) as [Hxy|Hxy]; [done|].
  cbn [List.filter] in *. rewrite IH.
  destruct (bool_decide_reflect (key y = k)) as [Hk|Hk]; [|done].
  destruct (bool_decide_reflect (key x = k)); [lia|done].
Qed.

Lemma sorted_stable k l :
  List.filter (λ y, bool_decide (key y = k)) (sorted key l)
  = List.filter (λ y, bool_decide (key y = k)) l.
Proof.
  induction l as [|x l IH]; [done|].
  cbn [sorted foldr]. rewrite insert_by_stable. cbn [List.filter].
  fold (sorted key l). by rewrite IH.
Qed.

(** Two sorted arrangements of the same elements coincide when no two
    elements share a key. *)
Lemma sorted_unique (l1 l2 : list A) :
  l1 ≡ₚ l2 → NoDup (key <$> l1) →
  StronglySorted key_le l1 → StronglySorted key_le l2 → l1 = l2.
Proof.
  revert l2. induction l1 as [|x l1 IH]; intros l2 Hp Hnd Hs1 Hs2.
  - by apply Permutation_nil_l in Hp.
  - destruct l2 as [|y l2]; [by apply Permutation_nil_r in Hp|].
    apply StronglySorted_inv in Hs1 as [Hs1 Hx].
    apply StronglySorted_inv in Hs2 as [Hs2 Hy].
    apply NoDup_cons in Hnd as [Hxn Hnd].
    assert (x = y) as ->.
    { assert (y ∈ x :: l1) as Hyin by (rewrite Hp; left).
      assert (x ∈ y :: l2) as Hxin by (rewrite <- Hp; left).
      apply elem_of_cons in Hyin as [->|Hyin]; [done|].
      apply elem_of_cons in Hxin as [->|Hxin]; [done|].
      rewrite Forall_forall in Hx, Hy.
      assert (key x = key y) as Hk.
      { pose proof (Hx y Hyin). pose proof (Hy x Hxin).
        unfold key_le in *. lia. }
      exfalso. apply Hxn. rewrite Hk. by apply list_elem_of_fmap_2. }
    f_equal. apply IH; [by apply Permutation_cons_inv in Hp|done..].
Qed.
End SortedFacts.

(** ** Chat history *)

(** A message takes part in the history when its content is not blank and
    its status is success. *)
Definition retained (m : Message) : Prop :=
  blank (content m) = false ∧ status m = SUCCESS.

#[local] Instance retained_dec m : Decision (retained m).
Proof. unfold retained. apply _. Defined.

(** The two-valued role of a history entry. *)
Definition history_entry (m : Message) (c : ChatMessage) : Prop :=
  chat_content c = content m
  ∧ (role m = assistant → chat_role c = ASSISTANT)
  ∧ (role m ≠ assistant → chat_role c = USER).

Lemma filter_retained msgs :
  List.filter
    (λ m, truthy (strip (content m)) && bool_decide (status m = SUCCESS)) msgs
  = filter retained msgs.
Proof.
  induction msgs as [|m msgs IH]; [done|].
  cbn [List.filter]. rewrite filter_cons, IH, truthy_strip.
  destruct (decide (retained m)) as [[Hb Hs]|Hn].
  - by rewrite Hb, bool_decide_true.
  - destruct (blank (content m)) eqn:Hb; [done|].
    rewrite bool_decide_false; [done|]. intros Hs. by apply Hn.
Qed.

(** C3. [get_chat_history] returns exactly the messages whose content is not
    blank and whose status is success, in ascending order of creation
    timestamp, each with its content and the role assistant for an assistant
    message and user for any other; a message that is filtered out does not
    appear. *)
Theorem get_chat_history_filters_sorts_maps (msgs : list Message) :
  ∃ kept : list Message,
    kept ≡ₚ filter retained msgs
    ∧ StronglySorted (λ a b, created_at a ≤ created_at b) kept
    ∧ Forall2 history_entry kept (get_chat_history msgs)
    ∧ ∀ m, m ∈ kept → m ∈ msgs ∧ retained m.
Proof.
  exists (sorted created_at (filter retained msgs)).
  pose proof (sorted_perm created_at (filter retained msgs)) as Hp.
  split_and!.
  - done.
  - apply (sorted_sorted created_at).
  - unfold get_chat_history. rewrite filter_retained.
    apply Forall2_fmap_r, Forall_Forall2_diag, Forall_forall.
    intros m _. unfold history_entry. cbn.
    destruct (decide (role m = assistant)); naive_solver.
  - intros m Hm. rewrite Hp in Hm. by apply list_elem_of_filter in Hm as [? ?].
Qed.

(** The history when two retained messages share a timestamp depends on the
    order they arrive in. *)
Definition tied_user : Message :=
  {| role := user; content := "a"; status := SUCCESS; created_at := 0 |}.
Definition tied_assistant : Message :=
  {| role := assistant; content := "b"; status := SUCCESS; created_at := 0 |}.

(** C4, as stated, fails: swapping two retained messages that share a
    creation timestamp swaps them in the output. *)
Lemma get_chat_history_not_permutation_invariant :
  ¬ (∀ l l' : list Message,
       l ≡ₚ l' → get_chat_history l = get_chat_history l').
Proof.
  intros H.
  specialize (H [tied_user; tied_assistant] [tied_assistant; tied_user]
                (Permutation_swap _ _ _)).
  vm_compute in H. discriminate H.
Qed.

(** C4, amended. When the retained messages have pairwise distinct creation
    timestamps, permuting the input does not change the output; among
    retained messages that share a timestamp the output keeps the order of
    the input. *)
Theorem get_chat_history_permutation (l l' : list Message) :
  l ≡ₚ l' →
  NoDup (created_at <$> filter retained l) →
  get_chat_history l = get_chat_history l'.
Proof.
  intros Hp Hnd. unfold get_chat_history. rewrite !filter_retained.
  f_equal. apply (sorted_unique created_at).
  - by rewrite !sorted_perm, Hp.
  - by rewrite sorted_perm.
  - apply sorted_sorted.
  - apply sorted_sorted.
Qed.

Lemma get_chat_history_permutation_witness :
  get_chat_history
    [tied_user;
     {| role := assistant; content := "b"; status := SUCCESS;
        created_at := 1 |}]
  = get_chat_history
      [{| role := assistant; content := "b"; status := SUCCESS;
          created_at := 1 |};
       tied_user].
Proof.
  apply get_chat_history_permutation.
  - apply Permutation_swap.
  - apply (bool_decide_unpack _). vm_compute. exact I.
Defined.

(** ** Dictionaries *)

Section DictFacts.
Context {V : Type}.
Implicit Types (d : dict V) (k : string) (v : V).

Lemma dict_set_keys_elem k v d k' :
  k' ∈ dict_keys (dict_set k v d) ↔ k' = k ∨ k' ∈ dict_keys d.
Proof.
  unfold dict_keys. induction d as [|[k0 v0] d IH]; cbn.
  - set_solver.
  - case_decide; subst; cbn; set_solver.
Qed.

Lemma dict_set_keys_NoDup k v d :
  NoDup (dict_keys d) → NoDup (dict_keys (dict_set k v d)).
Proof.
  unfold dict_keys. induction d as [|[k0 v0] d IH]; cbn; intros Hnd.
  - apply NoDup_singleton.
  - apply NoDup_cons in Hnd as [Hk0 Hnd].
    case_decide; subst; cbn; apply NoDup_cons; split; try done.
    + intros Hin. apply dict_set_keys_elem in Hin as [->|Hin]; done.
    + by apply IH.
Qed.

Lemma dict_set_keyset k v d :
  dict_keyset (dict_set k v d) = dict_keyset d ∪ {[k]}.
Proof.
  apply set_eq. intros k'. unfold dict_keyset.
  rewrite elem_of_union, !elem_of_list_to_set, dict_set_keys_elem.
  set_solver.
Qed.

Lemma fold_dict_set_keyset (l : list (string * V)) d :
  dict_keyset (fold_left (λ d kv, dict_set kv.1 kv.2 d) l d)
  = dict_keyset d ∪ list_to_set l.*1.
Proof.
  revert d. induction l as [|[k v] l IH]; intros d; cbn [fold_left fmap list_fmap].
  - set_solver.
  - rewrite IH. cbn [fst snd list_to_set]. rewrite dict_set_keyset. set_solver.
Qed.

Lemma fold_dict_set_NoDup (l : list (string * V)) d :
  NoDup (dict_keys d) →
  NoDup (dict_keys (fold_left (λ d kv, dict_set kv.1 kv.2 d) l d)).
Proof.
  revert d. induction l as [|[k v] l IH]; intros d Hd; cbn [fold_left]; [done|].
  by apply IH, dict_set_keys_NoDup.
Qed.

Lemma dict_of_pairs_keyset (l : list (string * V)) :
  dict_keyset (dict_of_pairs l) = list_to_set l.*1.
Proof.
  unfold dict_of_pairs. rewrite fold_dict_set_keyset.
  unfold dict_keyset, dict_keys. set_solver.
Qed.

Lemma dict_of_pairs_NoDup (l : list (string * V)) :
  NoDup (dict_keys (dict_of_pairs l)).
Proof. apply fold_dict_set_NoDup, NoDup_nil_2. Qed.
End DictFacts.

(** In a list without repetition, an element that occurs occurs once. *)
Lemma NoDup_occurs_once {A B} `{EqDecision B} (f : A → B) (l : list A) (b : B) :
  NoDup (f <$> l) → b ∈ f <$> l →
  length (filter (λ a, f a = b) l) = 1%nat.
Proof.
  induction l as [|a l IH]; intros Hnd Hin; [by apply elem_of_nil in Hin|].
  rewrite fmap_cons in Hnd, Hin.
  apply NoDup_cons in Hnd as [Ha Hnd]. rewrite filter_cons.
  case_decide as Hab.
  - subst b. cbn. f_equal.
    destruct (filter (λ a0, f a0 = f a) l) as [|a' r] eqn:Hf; [done|].
    assert (a' ∈ filter (λ a0, f a0 = f a) l) as Ha' by (rewrite Hf; left).
    apply list_elem_of_filter in Ha' as [Heq Ha'].
    exfalso. apply Ha. rewrite <- Heq. by apply list_elem_of_fmap_2.
  - apply IH; [done|]. apply elem_of_cons in Hin as [?|?]; [congruence|done].
Qed.

(** ** Index map *)

(** Case analysis on the outcome of every call that a run went through. *)
Ltac run_cases H :=
  unfold bind, try_except, ret, lift in H;
  repeat (case_match; simplify_eq/=).

Definition doc_ids (documents : list Document) : list string :=
  map (λ doc, uuid_str (id doc)) documents.

Section IndexMap.
Context `{C : Collaborators}.

(** What llama_index promises of [load_indices_from_storage] called with
    [index_ids]: it raises when an index is missing, and otherwise returns
    one index per requested id. *)
Definition load_contract : Prop :=
  ∀ ctx ids w indices w',
    load_indices_from_storage ctx ids w = (Ok indices, w') →
    length indices = length ids.

Lemma rebuild_indices_keys ctx docs d w m w' :
  rebuild_indices ctx docs d w = (Ok m, w') →
  dict_keyset m = dict_keyset d ∪ list_to_set (doc_ids docs)
  ∧ (NoDup (dict_keys d) → NoDup (dict_keys m)).
Proof.
  revert d w. induction docs as [|doc docs IH]; intros d w H.
  - cbn in H. unfold ret in H. simplify_eq. split; [set_solver|done].
  - cbn [rebuild_indices] in H. unfold fetch_and_read_document in H.
    run_cases H.
    match goal with
    | H : rebuild_indices _ _ _ _ = _ |- _ => apply IH in H as [Hk Hnd]
    end.
    split.
    + rewrite Hk, dict_set_keyset. cbn. set_solver.
    + intros Hd. by apply Hnd, dict_set_keys_NoDup.
Qed.

(** The branch taken when the indices load. *)
Lemma build_loaded docs w vs w1 ctx w2 indices w3 :
  get_vector_store_singleton w = (Ok vs, w1) →
  get_storage_context vs w1 = (Ok ctx, w2) →
  load_indices_from_storage ctx (doc_ids docs) w2 = (Ok indices, w3) →
  build_doc_id_to_index_map docs w
  = (Ok (dict_of_pairs (zip (doc_ids docs) indices)), w3).
Proof.
  intros H1 H2 H3. unfold build_doc_id_to_index_map, bind, try_except, ret.
  fold (doc_ids docs). by rewrite H1, H2, H3.
Qed.

(** The branch taken when loading fails with [ValueError]: every document is
    fetched and indexed afresh. *)
Lemma build_rebuilt docs w vs w1 ctx w2 w3 :
  get_vector_store_singleton w = (Ok vs, w1) →
  get_storage_context vs w1 = (Ok ctx, w2) →
  load_indices_from_storage ctx (doc_ids docs) w2 = (Raise ValueError, w3) →
  build_doc_id_to_index_map docs w
  = bind (StorageContext_from_defaults true vs)
         (λ ctx', rebuild_indices ctx' docs []) w3.
Proof.
  intros H1 H2 H3. unfold build_doc_id_to_index_map, bind, try_except, ret.
  fold (doc_ids docs). by rewrite H1, H2, H3.
Qed.

Lemma build_doc_id_to_index_map_NoDup docs w m w' :
  build_doc_id_to_index_map docs w = (Ok m, w') → NoDup (dict_keys m).
Proof.
  intros H. unfold build_doc_id_to_index_map in H. run_cases H;
    try apply dict_of_pairs_NoDup;
    match goal with
    | H : rebuild_indices _ _ _ _ = _ |- _ =>
        apply rebuild_indices_keys in H as [_ Hnd]; apply Hnd, NoDup_nil_2
    end.
Qed.

Lemma build_keyset docs w m w' :
  load_contract →
  build_doc_id_to_index_map docs w = (Ok m, w') →
  dict_keyset m = list_to_set (doc_ids docs).
Proof.
  intros Hload H. unfold build_doc_id_to_index_map in H.
  fold (doc_ids docs) in H. run_cases H;
    try (match goal with
         | H : rebuild_indices _ _ _ _ = _ |- _ =>
             apply rebuild_indices_keys in H as [-> _];
             unfold dict_keyset at 1; cbn; set_solver
         end);
    match goal with
    | H : load_indices_from_storage _ _ _ = _ |- _ => apply Hload in H
    end;
    rewrite dict_of_pairs_keyset, fst_zip; [done|lia|done|lia].
Qed.

(** C1. Whenever [build_doc_id_to_index_map] returns a mapping, its key set
    is the set of the id strings of the documents it was given: on the
    branch where the indices load (one index per id, as
    [load_indices_from_storage] promises) and on the branch that rebuilds
    every index after loading failed. *)
Theorem build_doc_id_to_index_map_keys docs w m w' :
  load_contract →
  build_doc_id_to_index_map docs w = (Ok m, w') →
  dict_keyset m = list_to_set (doc_ids docs).
Proof. apply build_keyset. Qed.

End IndexMap.

(** ** Concrete collaborators *)

(** A world that records the calls made to it.  An index is its id; the
    indices load when [loads] holds and loading raises [ValueError]
    otherwise. *)
Definition demo_collaborators (loads : bool) : Collaborators :=
  {| World := list string;
     VectorStore := unit;
     StorageContext := unit;
     VectorStoreIndex := string;
     LlamaIndexDocument := string;
     get_vector_store_singleton := λ w, (Ok tt, w);
     get_storage_context := λ _ w, (Ok tt, (w ++ ["get_storage_context"])%list);
     StorageContext_from_defaults := λ _ _ w, (Ok tt, (w ++ ["from_defaults"])%list);
     StorageContext_persist := λ _ w, (Ok tt, (w ++ ["persist"])%list);
     load_indices_from_storage := λ _ ids w,
       if loads then (Ok ids, (w ++ ["load"])%list)
       else (Raise ValueError, (w ++ ["load"])%list);
     requests_get := λ url w, (Ok url, (w ++ ["GET " +:+ url])%list);
     PDFReader_load_data := λ _ doc_id w, (Ok [doc_id], w);
     docstore_add_documents := λ _ _ w, (Ok tt, w);
     VectorStoreIndex_from_documents := λ _ _ w, (Ok EmptyString, w);
     set_index_id := λ _ index_id, index_id;
     index_storage_context := λ _, tt;
     build_title_for_document := url;
     api_tool_description := λ _, "An API tool." |}.

Definition acme_filing : Document :=
  {| id := 1; url := "https://example.com/acme.pdf";
     metadata_map := Some {| company_name := "Acme Corp";
                             company_ticker := "ACME";
                             doc_type := "10-Q"; year := 2023;
                             quarter := Some 1 |} |}.

Definition plain_document : Document :=
  {| id := 2; url := "https://example.com/notes.pdf"; metadata_map := None |}.

Definition demo_documents : list Document := [acme_filing; plain_document].

Definition demo_index_map : dict string :=
  [("00000000-0000-0000-0000-000000000001",
    "00000000-0000-0000-0000-000000000001");
   ("00000000-0000-0000-0000-000000000002",
    "00000000-0000-0000-0000-000000000002")].

Lemma demo_load_contract loads :
  load_contract (C := demo_collaborators loads).
Proof.
  intros ctx ids w indices w' H. cbn in H.
  destruct loads; by simplify_eq.
Qed.

Lemma build_doc_id_to_index_map_keys_witness :
  dict_keyset demo_index_map = list_to_set (doc_ids demo_documents)
  ∧ dict_keyset demo_index_map = list_to_set (doc_ids demo_documents).
Proof.
  split.
  - apply (build_doc_id_to_index_map_keys (C := demo_collaborators true)
             demo_documents [] demo_index_map
             ["get_storage_context"; "load"]).
    + apply demo_load_contract.
    + vm_compute. reflexivity.
  - apply (build_doc_id_to_index_map_keys (C := demo_collaborators false)
             demo_documents [] demo_index_map
             ["get_storage_context"; "load"; "from_defaults";
              "GET https://example.com/acme.pdf"; "persist";
              "GET https://example.com/notes.pdf"; "persist"]).
    + apply demo_load_contract.
    + vm_compute. reflexivity.
Defined.

(** ** Tool sets *)

Section ToolNames.
Context `{C : Collaborators}.

Definition tool_name (t : QueryEngineTool) : string := name (metadata t).

Definition has_sec_metadata (doc : Document) : bool :=
  bool_decide (is_Some (Engine.metadata_map doc)).

Lemma vector_query_engine_tools_names items id_to_doc tl :
  vector_query_engine_tools items id_to_doc = Ok tl →
  map tool_name tl = items.*1.
Proof.
  revert tl. induction items as [|[doc_id index] items IH]; intros tl H.
  - cbn in H. by simplify_eq.
  - cbn [vector_query_engine_tools] in H. unfold rbind in H.
    repeat (case_match; simplify_eq/=). f_equal. by apply IH.
Qed.

Lemma api_query_engine_tools_names docs :
  map tool_name (api_query_engine_tools docs)
  = doc_ids (List.filter has_sec_metadata docs).
Proof.
  unfold api_query_engine_tools, doc_ids. rewrite map_map.
  by apply map_ext.
Qed.

(** C9. In the agent that [get_chat_engine] returns, the qualitative tool
    set has, for every document of the conversation, exactly one tool named
    by that document's id string, no name occurs twice in it and every name
    in it is a document id; the quantitative tool set names its tools by
    document id in the same way. *)
Theorem tool_names_are_document_ids conv w agent w' :
  load_contract →
  get_chat_engine conv w = (Ok agent, w') →
  ∃ qualitative quantitative,
    tools agent = [qualitative; quantitative]
    ∧ (∀ doc, doc ∈ documents conv →
         length (filter (λ t, tool_name t = uuid_str (id doc))
                   (query_engine_tools qualitative)) = 1%nat)
    ∧ NoDup (map tool_name (query_engine_tools qualitative))
    ∧ (∀ t, t ∈ query_engine_tools qualitative →
         tool_name t ∈ doc_ids (documents conv))
    ∧ map tool_name (query_engine_tools quantitative)
      = doc_ids (List.filter has_sec_metadata (documents conv)).
Proof.
  intros Hload H. unfold get_chat_engine in H.
  unfold bind at 1 in H.
  destruct (build_doc_id_to_index_map (documents conv) w)
    as [[m|e] w1] eqn:Hbuild; [|done].
  unfold bind, lift, ret in H.
  destruct (vector_query_engine_tools m _) as [vector_tools|e] eqn:Hv; [|done].
  simplify_eq. eexists _, _. split; [reflexivity|]. cbn.
  apply vector_query_engine_tools_names in Hv.
  pose proof (build_doc_id_to_index_map_NoDup _ _ _ _ Hbuild) as Hnd.
  pose proof (build_keyset _ _ _ _ Hload Hbuild) as Hkeys.
  fold (dict_keys m) in Hv. rewrite <- Hv in Hnd.
  assert (∀ k, k ∈ map tool_name vector_tools ↔ k ∈ doc_ids (documents conv))
    as Hmem.
  { intros k. rewrite Hv.
    rewrite <- (elem_of_list_to_set (C := gset string) k (dict_keys m)).
    fold (dict_keyset m). rewrite Hkeys. apply elem_of_list_to_set. }
  split_and!.
  - intros doc Hdoc. apply (NoDup_occurs_once tool_name); [done|].
    apply Hmem. unfold doc_ids.
    by apply (list_elem_of_fmap_2 (λ doc, uuid_str (id doc))).
  - done.
  - intros t Ht. apply Hmem. by apply (list_elem_of_fmap_2 tool_name).
  - apply api_query_engine_tools_names.
Qed.

End ToolNames.

Definition demo_conversation : Conversation :=
  {| documents := demo_documents; messages := [tied_user] |}.

Definition demo_engine_outcome :=
  Eval vm_compute in
    get_chat_engine (C := demo_collaborators true) demo_conversation [].

Lemma tool_names_are_document_ids_witness :
  ∃ agent w',
    demo_engine_outcome = (Ok agent, w')
    ∧ ∃ qualitative quantitative,
        tools agent = [qualitative; quantitative]
        ∧ (∀ doc, doc ∈ demo_documents →
             length (filter (λ t, tool_name t = uuid_str (id doc))
                       (query_engine_tools qualitative)) = 1%nat)
        ∧ NoDup (map tool_name (query_engine_tools qualitative))
        ∧ (∀ t, t ∈ query_engine_tools qualitative →
             tool_name t ∈ doc_ids demo_documents)
        ∧ map tool_name (query_engine_tools quantitative)
          = doc_ids (List.filter has_sec_metadata demo_documents).
Proof.
  eexists _, _. split; [reflexivity|].
  eapply (tool_names_are_document_ids (C := demo_collaborators true)
            demo_conversation []).
  - apply demo_load_contract.
  - vm_compute. reflexivity.
Defined.

(** ** Event translator *)

Import Messaging.

(** Externals over the concrete collaborators: sources are the event kinds
    plus a member for the constructed query engine, and the engine streams
    [tokens]. *)
Definition demo_astream_chat (loads : bool) (tokens : list string)
  : @OpenAIAgent (demo_collaborators loads) → string
    → M (@World (demo_collaborators loads)) (list string) :=
  λ _ _ w, (Ok tokens, ((w : list string) ++ ["astream_chat"])%list).

Definition demo_externals (loads : bool) (tokens : list string)
  : @Externals (demo_collaborators loads) :=
  @Build_Externals (demo_collaborators loads)
    (λ _, "<object>") "sub_question" Ok (option CBEventType)
    (λ t, Some (Some t)) None (demo_astream_chat loads tokens).

(** A source node as llama_index hands it over: an object whose [node]
    attribute carries a [metadata] dictionary and, possibly, a [text]. *)
Definition source_node (metadata : dict PyVal) (text : option PyVal) : PyVal :=
  PObj [("node",
         PObj (("metadata", PDict metadata)
               :: match text with
                  | Some t => [("text", t)]
                  | None => []
                  end));
        ("score", PNone)].


Definition page_three : PyVal :=
  source_node [("db_document_id", PStr "doc-1"); ("page_label", PStr "3")]
    (Some (PStr "Revenue grew.")).

Definition page_roman : PyVal :=
  source_node [("db_document_id", PStr "doc-1"); ("page_label", PStr "iv")]
    (Some (PStr "Preface.")).

Definition open_state `{X : Externals} : State :=
  {| _closed := false; sent := []; log := []; task_exceptions := [] |}.

Section Translator.
Context `{X : Externals}.










End Translator.


Section Classification.
Context `{X : Externals}.

(** The payload shapes for which the translator has metadata. *)
Definition recognized (event_type : CBEventType)
    (payload : option (dict PyVal)) : Prop :=
  ∃ p, payload = Some p
       ∧ (dict_mem EventPayload.RESPONSE p = true
          ∨ (event_type = SUB_QUESTION
             ∧ dict_mem EventPayload.SUB_QUESTION p = true)
          ∨ (event_type = FUNCTION_CALL
             ∧ ∃ s, dict_get EventPayload.FUNCTION_OUTPUT p = Some (PStr s))).


Lemma get_metadata_recognized event_type payload is_start_event m :
  get_metadata_from_event event_type payload is_start_event = Ok m →
  m ≠ [] → recognized event_type payload.
Proof.
  unfold get_metadata_from_event, recognized. intros H Hm.
  destruct payload as [p|]; [|done]. exists p. split; [done|].
  destruct (dict_mem EventPayload.RESPONSE p); [by left|right].
  case_bool_decide as Hsq; cbn [andb] in H.
  - destruct (dict_mem EventPayload.SUB_QUESTION p); [left; by split|].
    case_bool_decide as Hfc; [congruence|]. cbn [andb] in H. by simplify_eq.
  - case_bool_decide as Hfc; cbn [andb] in H; [|by simplify_eq].
    destruct (dict_mem EventPayload.FUNCTION_OUTPUT p); [|by simplify_eq].
    right. split; [done|].
    destruct (dict_get EventPayload.FUNCTION_OUTPUT p) as [[]|];
      cbn in H; simplify_eq; eauto.
Qed.

Lemma get_metadata_ignores_start_flag event_type payload b b' :
  get_metadata_from_event event_type payload b
  = get_metadata_from_event event_type payload b'.
Proof. reflexivity. Qed.


(** C5, amended. The record that [async_on_event] sends has
    [has_ended = not is_start_event] and the metadata that the event kind
    and the payload give, which is the same for a start and for an end
    event; metadata is attached only for the recognized payload shapes. *)
Theorem sub_process_record_metadata
    event_type payload event_id is_start_event closed_meanwhile st r st' :
  async_on_event event_type payload event_id is_start_event closed_meanwhile
    st = (r, st') →
  get_metadata_from_event event_type payload true
  = get_metadata_from_event event_type payload false
  ∧ (sent st' = sent st
     ∨ ∃ source m,
         source_by_name event_type = Some source
         ∧ get_metadata_from_event event_type payload is_start_event = Ok m
         ∧ sent st'
           = sent st
             ++ [SubProcess
                   {| source := source;
                      has_ended := negb is_start_event;
                      event_id := event_id;
                      metadata_map :=
                        match m with [] => None | _ => Some m end |}]
         ∧ (m ≠ [] → recognized event_type payload)).
Proof.
  intros H. split; [apply get_metadata_ignores_start_flag|].
  unfold async_on_event in H.
  destruct (get_metadata_from_event event_type payload is_start_event)
    as [m|e] eqn:Hm; [|left; by simplify_eq].
  destruct (source_by_name event_type) as [source|]; [|left; by simplify_eq].
  destruct (_closed st) eqn:Hclosed; [left; by simplify_eq|].
  unfold send_nowait in H.
  destruct closed_meanwhile; cbn in H.
  - left. by simplify_eq.
  - rewrite Hclosed in H. simplify_eq. right. exists source, m. cbn.
    split_and!; try done. intros Hne. by eapply get_metadata_recognized.
Qed.

(** C10. An event delivered without a payload makes the translator raise
    [TypeError] at its first membership test: the task of the callback ends
    with that exception and nothing is sent. *)
Theorem none_payload_raises event_type event_id is_start_event
    closed_meanwhile st :
  get_metadata_from_event event_type None is_start_event = Raise TypeError
  ∧ async_on_event event_type None event_id is_start_event closed_meanwhile st
    = (Raise TypeError, st)
  ∧ sent (on_event_start event_type None event_id closed_meanwhile st)
    = sent st
  ∧ task_exceptions
      (on_event_start event_type None event_id closed_meanwhile st)
    = task_exceptions st ++ [TypeError].
Proof. done. Qed.

End Classification.



Definition sub_question_payload : dict PyVal :=
  [("sub_question", PStr "What changed?")].

(** C5, as stated, fails: the start of a sub-question event, whose payload
    carries the sub-question, is sent with [has_ended = false] and with a
    metadata map. *)
Lemma start_event_record_carries_metadata :
  ∃ p,
    sent (on_event_start (X := demo_externals true [])
            SUB_QUESTION (Some sub_question_payload) "e1" false open_state)
    = [SubProcess p]
    ∧ has_ended p = false
    ∧ metadata_map p = Some [("sub_question", PStr "What changed?")].
Proof. eexists. split_and!; reflexivity. Qed.

Definition demo_start_outcome :=
  async_on_event (X := demo_externals true [])
    SUB_QUESTION (Some sub_question_payload) "e1" true false open_state.

Lemma sub_process_record_metadata_witness :
  get_metadata_from_event (X := demo_externals true [])
    SUB_QUESTION (Some sub_question_payload) true
  = get_metadata_from_event (X := demo_externals true [])
      SUB_QUESTION (Some sub_question_payload) false
  ∧ (sent demo_start_outcome.2 = sent (open_state (X := demo_externals true []))
     ∨ ∃ source m,
         source_by_name SUB_QUESTION = Some source
         ∧ get_metadata_from_event (X := demo_externals true [])
             SUB_QUESTION (Some sub_question_payload) true = Ok m
         ∧ sent demo_start_outcome.2
           = sent (open_state (X := demo_externals true []))
             ++ [SubProcess
                   {| source := source;
                      has_ended := negb true;
                      event_id := "e1";
                      metadata_map :=
                        match m with [] => None | _ => Some m end |}]
         ∧ (m ≠ [] → recognized SUB_QUESTION (Some sub_question_payload))).
Proof.
  apply (sub_process_record_metadata (X := demo_externals true [])
           SUB_QUESTION (Some sub_question_payload) "e1" true false
           open_state demo_start_outcome.1 demo_start_outcome.2).
  reflexivity.
Defined.

(** ** Streaming dispatcher *)

Lemma blank_app a b : blank (a +:+ b) = blank a && blank b.
Proof.
  unfold blank. induction a as [|c a IH]; [done|].
  change (String c a +:+ b) with (String c (a +:+ b)).
  cbn [list_ascii_of_string forallb]. by rewrite IH, andb_assoc.
Qed.

(** The answer text after the fragments [tokens], starting from [acc]. *)
Fixpoint accumulate (acc : string) (tokens : list string) : string :=
  match tokens with
  | [] => acc
  | text :: rest => accumulate (acc +:+ text) rest
  end.

(** The snapshots that the fragments [tokens] give rise to. *)
Fixpoint snapshots (acc : string) (tokens : list string) : list string :=
  match tokens with
  | [] => []
  | text :: rest => (acc +:+ text) :: snapshots (acc +:+ text) rest
  end.

Lemma blank_accumulate acc tokens :
  blank (accumulate acc tokens) = true → blank acc = true.
Proof.
  revert acc. induction tokens as [|t tokens IH]; intros acc H; [done|].
  apply IH in H. rewrite blank_app in H. by apply andb_true_iff in H as [? _].
Qed.

Lemma blank_snapshots acc tokens s :
  blank (accumulate acc tokens) = true → s ∈ snapshots acc tokens →
  blank s = true.
Proof.
  revert acc. induction tokens as [|t tokens IH]; intros acc H Hs; cbn in *.
  - by apply elem_of_nil in Hs.
  - apply elem_of_cons in Hs as [->|Hs]; [by apply blank_accumulate in H|].
    by eapply IH.
Qed.

Section Dispatcher.
Context `{X : Externals}.

(** The contents of the streamed messages among the items sent. *)
Definition contents (items : list Item) : list string :=
  omap (λ i, match i with
             | Message m => Some (content m)
             | SubProcess _ => None
             end) items.

(** A step of the environment that leaves the send stream open. *)
Definition quiet_step (e : env_step) : Prop :=
  match e with
  | EnvClose => False
  | EnvEventStart _ _ _ c | EnvEventEnd _ _ _ c => c = false
  end.

Definition quiet (steps : list env_step) : Prop := Forall quiet_step steps.

Definition quiet_schedule (sched : Schedule) : Prop :=
  quiet (during_get_chat_engine sched)
  ∧ quiet (during_first_send sched)
  ∧ quiet (during_astream_chat sched)
  ∧ Forall (λ p, quiet p.1 ∧ quiet p.2) (during_tokens sched)
  ∧ quiet (during_exhaustion sched)
  ∧ quiet (during_fallback_send sched).

(** The send stream is open and the streamed messages are [msgs]. *)
Definition open_with (msgs : list string) (st : State) : Prop :=
  _closed st = false ∧ contents (sent st) = msgs.

Lemma contents_app l1 l2 : contents (l1 ++ l2) = contents l1 ++ contents l2.
Proof. apply omap_app. Qed.

Lemma task_quiet event_type payload event_id is_start_event msgs st :
  open_with msgs st →
  open_with msgs
    (create_task
       (async_on_event event_type payload event_id is_start_event false) st).
Proof.
  intros [Hopen Hmsgs]. unfold create_task, async_on_event, send_nowait.
  destruct (get_metadata_from_event _ _ _); [|done].
  destruct (source_by_name event_type); [|done].
  rewrite Hopen. cbn. split; cbn; [done|].
  rewrite contents_app, Hmsgs. cbn. apply app_nil_r.
Qed.

Lemma run_env_quiet steps msgs st :
  quiet steps → open_with msgs st → open_with msgs (run_env steps st).
Proof.
  intros Hq. revert st. induction Hq as [|e steps He _ IH]; intros st Hst.
  - done.
  - cbn. apply IH. destruct e; cbn in He; [done|subst..]; by apply task_quiet.
Qed.

Lemma task_closed event_type payload event_id is_start_event c st :
  _closed st = true →
  _closed (create_task
             (async_on_event event_type payload event_id is_start_event c)
             st) = true.
Proof.
  intros Hc. unfold create_task, async_on_event.
  destruct (get_metadata_from_event _ _ _); [|done].
  destruct (source_by_name _); [|done].
  by rewrite Hc.
Qed.

Lemma run_env_step_closed e st :
  _closed st = true → _closed (run_env_step e st) = true.
Proof. intros Hc. destruct e; [done|by apply task_closed..]. Qed.

Lemma run_env_closed steps st :
  _closed st = true → _closed (run_env steps st) = true.
Proof.
  revert st. induction steps as [|e steps IH]; intros st Hc; [done|].
  cbn. by apply IH, run_env_step_closed.
Qed.

Lemma run_env_close steps st :
  EnvClose ∈ steps → _closed (run_env steps st) = true.
Proof.
  revert st. induction steps as [|e steps IH]; intros st Hin.
  - by apply elem_of_nil in Hin.
  - cbn. apply elem_of_cons in Hin as [<-|Hin]; [|by apply IH].
    by apply run_env_closed.
Qed.

Lemma send_open steps item msgs w st :
  quiet steps → open_with msgs st →
  ∃ st', send steps item (w, st) = (Ok tt, (w, st'))
         ∧ open_with (msgs ++ contents [item]) st'.
Proof.
  intros Hq Hst. destruct (run_env_quiet _ _ _ Hq Hst) as [Hopen Hmsgs].
  unfold send, await, on_chan, send_nowait. cbn. rewrite Hopen.
  eexists. split; [reflexivity|]. split; [done|].
  cbn [sent]. by rewrite contents_app, Hmsgs.
Qed.

Lemma send_closed steps item w st :
  _closed (run_env steps st) = true →
  send steps item (w, st) = (Raise ClosedResourceError, (w, run_env steps st)).
Proof.
  intros Hc. unfold send, await, on_chan, send_nowait. cbn. by rewrite Hc.
Qed.

Lemma consume_quiet tokens steps acc msgs w st :
  Forall (λ p, quiet p.1 ∧ quiet p.2) steps → open_with msgs st →
  ∃ st', consume tokens steps acc (w, st)
         = (Ok (Some (accumulate acc tokens)), (w, st'))
         ∧ open_with (msgs ++ snapshots acc tokens) st'.
Proof.
  revert steps acc msgs st.
  induction tokens as [|text rest IH]; intros steps acc msgs st Hq Hst.
  - exists st. split; [done|]. cbn. by rewrite app_nil_r.
  - assert (quiet (default ([], []) (head steps)).1
            ∧ quiet (default ([], []) (head steps)).2
            ∧ Forall (λ p, quiet p.1 ∧ quiet p.2) (tail steps))
      as (Hw & Hs & Hrest).
    { destruct Hq as [|p steps [? ?] ?]; cbn; [|done].
      split_and!; constructor. }
    cbn [consume]. destruct (default ([], []) (head steps)) as [waiting sending].
    cbn [fst snd] in Hw, Hs.
    pose proof (run_env_quiet _ _ _ Hw Hst) as Hst1.
    destruct (send_open sending
                (Message {| content := acc +:+ text |}) msgs w _ Hs Hst1)
      as (st2 & Hsend & Hst2).
    destruct (IH (tail steps) (acc +:+ text) _ st2 Hrest Hst2)
      as (st3 & Hrun & Hst3).
    exists st3. split.
    + unfold bind at 1. unfold await at 1. cbn [fst snd ret].
      unfold bind at 1. unfold on_chan at 1. cbn [fst snd].
      destruct Hst1 as [-> _]. unfold bind at 1. by rewrite Hsend.
    + cbn [snapshots]. cbn in Hst3. by rewrite <- app_assoc in Hst3.
Qed.

Lemma debug_open msg msgs w st :
  open_with msgs st →
  ∃ st', debug msg (w, st) = (Ok tt, (w, st')) ∧ open_with msgs st'.
Proof. intros Hst. eexists. split; [reflexivity|done]. Qed.

Lemma blank_decide s : bool_decide (strip s = EmptyString) = blank s.
Proof.
  destruct (blank s) eqn:Hb.
  - apply bool_decide_eq_true, strip_empty_iff, Hb.
  - apply bool_decide_eq_false. rewrite strip_empty_iff. congruence.
Qed.

(** The run of [handle_chat_message] up to the end of the token stream,
    when nothing closes the send stream on the way. *)
Definition before_exhaustion (conversation : Conversation)
    (user_message : UserMessageCreate) (uuid : N) (sched : Schedule)
  : M (World * State) (option string) :=
  bind (await (during_get_chat_engine sched)
          (on_world (get_chat_engine conversation))) (λ chat_engine,
  bind (send (during_first_send sched)
          (SubProcess {| event_id := uuid_str uuid; has_ended := true;
                         source := CONSTRUCTED_QUERY_ENGINE;
                         metadata_map := None |})) (λ _,
  bind (debug "Engine received") (λ _,
  bind (await (during_astream_chat sched)
          (on_world (astream_chat chat_engine (templated user_message))))
       (λ tokens, consume tokens (during_tokens sched) EmptyString)))).

Lemma before_exhaustion_quiet conv um uuid sched w st agent w1 tokens w2 msgs :
  open_with msgs st →
  quiet_schedule sched →
  get_chat_engine conv w = (Ok agent, w1) →
  astream_chat agent (templated um) w1 = (Ok tokens, w2) →
  ∃ st', before_exhaustion conv um uuid sched (w, st)
         = (Ok (Some (accumulate EmptyString tokens)), (w2, st'))
         ∧ open_with (msgs ++ snapshots EmptyString tokens) st'.
Proof.
  intros Hst (Hq1 & Hq2 & Hq3 & Hq4 & _ & _) Hengine Hstream.
  pose proof (run_env_quiet _ _ _ Hq1 Hst) as Hst1.
  destruct (send_open (during_first_send sched)
              (SubProcess {| event_id := uuid_str uuid; has_ended := true;
                             source := CONSTRUCTED_QUERY_ENGINE;
                             metadata_map := None |})
              msgs w1 _ Hq2 Hst1) as (st2 & Hsend & Hst2).
  cbn in Hst2. rewrite app_nil_r in Hst2.
  destruct (debug_open "Engine received" msgs w1 st2 Hst2)
    as (st3 & Hdebug & Hst3).
  pose proof (run_env_quiet _ _ _ Hq3 Hst3) as Hst4.
  destruct (consume_quiet tokens (during_tokens sched) EmptyString msgs w2 _
              Hq4 Hst4) as (st5 & Hconsume & Hst5).
  exists st5. split; [|done].
  unfold before_exhaustion.
  unfold bind at 1. unfold await at 1, on_world at 1. cbn [fst snd].
  rewrite Hengine.
  unfold bind at 1. rewrite Hsend.
  unfold bind at 1. rewrite Hdebug.
  unfold bind at 1. unfold await at 1, on_world at 1. cbn [fst snd].
  rewrite Hstream. exact Hconsume.
Qed.

Lemma handle_chat_message_unfold conv um uuid sched ws :
  handle_chat_message conv um uuid sched ws
  = async_with
      (bind (before_exhaustion conv um uuid sched) (λ outcome,
         match outcome with
         | None => ret tt
         | Some response_str =>
             bind (await (during_exhaustion sched) (ret tt)) (λ _,
             if bool_decide (strip response_str = EmptyString) then
               send (during_fallback_send sched)
                 (Message {| content := fallback_message |})
             else ret tt)
         end)) ws.
Proof.
  unfold handle_chat_message, before_exhaustion, async_with, bind.
  repeat case_match; simplify_eq; done.
Qed.

(** C8. When nothing closes the send stream and generation runs to the end
    of the token stream, the streamed messages sent are the snapshots of the
    accumulated text followed, if that text is blank at the end, by one
    message with the fixed fallback content, which no snapshot has; if the
    text is not blank, nothing follows the snapshots. *)
Theorem fallback_sent_exactly_when_blank
    conv um uuid sched w st agent w1 tokens w2 msgs :
  open_with msgs st →
  quiet_schedule sched →
  get_chat_engine conv w = (Ok agent, w1) →
  astream_chat agent (templated um) w1 = (Ok tokens, w2) →
  ∃ st',
    handle_chat_message conv um uuid sched (w, st) = (Ok tt, (w2, st'))
    ∧ contents (sent st')
      = msgs ++ snapshots EmptyString tokens
        ++ (if blank (accumulate EmptyString tokens)
            then [fallback_message] else [])
    ∧ (blank (accumulate EmptyString tokens) = true →
       fallback_message ∉ snapshots EmptyString tokens).
Proof.
  intros Hst Hq Hengine Hstream.
  destruct (before_exhaustion_quiet conv um uuid sched _ _ _ _ _ _ _
              Hst Hq Hengine Hstream) as (st5 & Hrun & Hst5).
  destruct Hq as (_ & _ & _ & _ & Hq5 & Hq6).
  pose proof (run_env_quiet _ _ _ Hq5 Hst5) as Hst6.
  rewrite handle_chat_message_unfold. unfold async_with.
  unfold bind at 1. rewrite Hrun.
  unfold bind at 1. unfold await at 1, ret at 1. cbn [fst snd].
  rewrite blank_decide.
  destruct (blank (accumulate EmptyString tokens)) eqn:Hblank.
  - destruct (send_open (during_fallback_send sched)
                (Message {| content := fallback_message |}) _ w2 _ Hq6 Hst6)
      as (st7 & Hsend & [_ Hmsgs]).
    rewrite Hsend. eexists. split; [reflexivity|]. split.
    + cbn [close sent]. rewrite Hmsgs. cbn. by rewrite <- app_assoc.
    + intros _ Hin. by apply (blank_snapshots _ _ _ Hblank) in Hin.
  - eexists. split; [reflexivity|]. split; [|done].
    cbn [close sent ret]. destruct Hst6 as [_ ->]. by rewrite app_nil_r.
Qed.

(** C2. A send stream closed while [handle_chat_message] waits for the end
    of a token stream whose text is blank makes the send of the fallback
    message raise [ClosedResourceError] out of [handle_chat_message]: that
    send is not guarded by the test of [_closed] that guards the snapshots,
    nor by the [try] that guards the sends of the callback tasks. *)
Theorem fallback_send_after_close_raises
    conv um uuid sched w st agent w1 tokens w2 msgs :
  open_with msgs st →
  quiet_schedule
    {| during_get_chat_engine := during_get_chat_engine sched;
       during_first_send := during_first_send sched;
       during_astream_chat := during_astream_chat sched;
       during_tokens := during_tokens sched;
       during_exhaustion := [];
       during_fallback_send := [] |} →
  EnvClose ∈ during_exhaustion sched →
  get_chat_engine conv w = (Ok agent, w1) →
  astream_chat agent (templated um) w1 = (Ok tokens, w2) →
  blank (accumulate EmptyString tokens) = true →
  ∃ st',
    handle_chat_message conv um uuid sched (w, st)
    = (Raise ClosedResourceError, (w2, st')).
Proof.
  intros Hst Hq Hclose Hengine Hstream Hblank.
  destruct (before_exhaustion_quiet conv um uuid _ _ _ _ _ _ _ _
              Hst Hq Hengine Hstream) as (st5 & Hrun & Hst5).
  rewrite handle_chat_message_unfold. unfold async_with.
  unfold bind at 1.
  replace (before_exhaustion conv um uuid sched (w, st))
    with (Ok (Some (accumulate EmptyString tokens)), (w2, st5))
    by (rewrite <- Hrun; reflexivity).
  unfold bind at 1. unfold await at 1, ret at 1. cbn [fst snd].
  rewrite blank_decide, Hblank, send_closed; [by eexists|].
  by apply run_env_closed, run_env_close.
Qed.

End Dispatcher.

(** Two runs on the concrete collaborators, the engine streaming one blank
    fragment: one in which only callbacks arrive, one in which the send
    stream is closed while the dispatcher waits for the end of the stream. *)
Definition quiet_run : Schedule :=
  {| during_get_chat_engine := [];
     during_first_send := [EnvEventStart QUERY (Some []) "q1" false];
     during_astream_chat := [];
     during_tokens := [];
     during_exhaustion := [EnvEventEnd QUERY (Some []) "q1" false];
     during_fallback_send := [] |}.

Definition closed_at_exhaustion : Schedule :=
  {| during_get_chat_engine := [];
     during_first_send := [];
     during_astream_chat := [];
     during_tokens := [];
     during_exhaustion := [EnvClose];
     during_fallback_send := [] |}.

Definition greeting : UserMessageCreate :=
  {| user_content := "How did revenue change?" |}.

Lemma fallback_sent_exactly_when_blank_witness :
  ∃ st',
    handle_chat_message (X := demo_externals true [" "])
      demo_conversation greeting 7 quiet_run ([], open_state)
    = (Ok tt, (["get_storage_context"; "load"; "astream_chat"], st'))
    ∧ contents (sent st')
      = [] ++ snapshots EmptyString [" "]
        ++ (if blank (accumulate EmptyString [" "])
            then [fallback_message] else [])
    ∧ (blank (accumulate EmptyString [" "]) = true →
       fallback_message ∉ snapshots EmptyString [" "]).
Proof.
  eapply (fallback_sent_exactly_when_blank (X := demo_externals true [" "])
            demo_conversation greeting 7 quiet_run [] open_state).
  - split; reflexivity.
  - repeat split; repeat constructor.
  - vm_compute. reflexivity.
  - reflexivity.
Defined.

Lemma fallback_send_after_close_raises_witness :
  ∃ st',
    handle_chat_message (X := demo_externals true [" "])
      demo_conversation greeting 7 closed_at_exhaustion ([], open_state)
    = (Raise ClosedResourceError,
       (["get_storage_context"; "load"; "astream_chat"], st')).
Proof.
  eapply (fallback_send_after_close_raises (X := demo_externals true [" "])
            demo_conversation greeting 7 closed_at_exhaustion [] open_state
            _ _ [" "] _ []).
  - split; reflexivity.
  - repeat split; repeat constructor.
  - vm_compute. left.
  - vm_compute. reflexivity.
  - reflexivity.
  - reflexivity.
Defined.

(* ===================================================================== *)
(** * Part III. Further properties                                        *)
(* ===================================================================== *)

(** ** Chat history: order among equal timestamps *)

(** The history entry of a message. *)
Definition to_chat_message (m : Engine.Message) : ChatMessage :=
  {| chat_content := Engine.content m;
     chat_role := if decide (role m = assistant) then ASSISTANT else USER |}.

Lemma sorted_fixpoint {A} (key : A → Z) (l : list A) :
  StronglySorted (key_le key) l → sorted key l = l.
Proof.
  induction 1 as [|x l Hl IH Hx]; [done|].
  cbn [sorted foldr]. fold (sorted key l). rewrite IH.
  destruct Hx as [|y l Hxy _]; [done|].
  cbn [insert_by]. unfold key_le in Hxy.
  by destruct (Z.leb_spec (key x) (key y)); [|lia].
Qed.

(** X1. Among the retained messages that share a creation timestamp, the
    history keeps the order of the input: for every timestamp, the messages
    with that timestamp appear in the history's underlying sequence in the
    order in which they were passed. *)
Theorem get_chat_history_stable (msgs : list Engine.Message) :
  ∃ kept : list Engine.Message,
    get_chat_history msgs = map to_chat_message kept
    ∧ ∀ t, List.filter (λ m, bool_decide (created_at m = t)) kept
           = List.filter (λ m, bool_decide (created_at m = t))
               (filter retained msgs).
Proof.
  exists (sorted created_at (filter retained msgs)). split.
  - unfold get_chat_history. by rewrite filter_retained.
  - intros t. apply sorted_stable.
Qed.

(** X2. Messages that come in chronological order, ties included, leave in
    the same order: when the retained messages are already sorted by
    creation timestamp, the history is their image, one entry per retained
    message, in input order. *)
Theorem get_chat_history_chronological (msgs : list Engine.Message) :
  StronglySorted (λ a b, created_at a ≤ created_at b) (filter retained msgs) →
  get_chat_history msgs = map to_chat_message (filter retained msgs).
Proof.
  intros Hs. unfold get_chat_history.
  by rewrite filter_retained, (sorted_fixpoint created_at).
Qed.

Definition blank_message : Engine.Message :=
  {| role := user; Engine.content := "  "; status := SUCCESS;
     created_at := 5 |}.

Lemma get_chat_history_chronological_witness :
  get_chat_history [tied_user; blank_message; tied_assistant]
  = map to_chat_message
      (filter retained [tied_user; blank_message; tied_assistant]).
Proof.
  apply get_chat_history_chronological.
  vm_compute. repeat constructor; discriminate.
Defined.

(** ** The message handed to the engine *)

Lemma rstrip_app a b :
  rstrip (a +:+ b) = if blank b then rstrip a else a +:+ rstrip b.
Proof.
  induction a as [|c a IH].
  - change (EmptyString +:+ b) with b.
    destruct (blank b) eqn:Hb; [|done]. by apply rstrip_empty_iff.
  - change (String c a +:+ b) with (String c (a +:+ b)).
    cbn [rstrip]. rewrite IH.
    destruct (blank b) eqn:Hb; [done|].
    change (String c a +:+ rstrip b) with (String c (a +:+ rstrip b)).
    destruct (a +:+ rstrip b) eqn:Hab; [|done].
    assert (rstrip b = EmptyString) as Hr by (by destruct a).
    apply rstrip_empty_iff in Hr. congruence.
Qed.

Definition reminder : string :=
  "Remember - if I have asked a relevant financial question, use your tools.".

(** X3. The message handed to the engine is the reminder sentence alone when
    the user's content is blank; otherwise it is the reminder, an empty
    line, and the user's content without its trailing whitespace (leading
    whitespace is kept). *)
Theorem templated_message (um : UserMessageCreate) :
  templated um
  = if blank (user_content um) then reminder
    else reminder +:+ newline +:+ newline +:+ rstrip (user_content um).
Proof.
  unfold templated, strip.
  assert (lstrip (newline +:+ reminder +:+ newline +:+ newline
                  +:+ user_content um +:+ newline +:+ "        ")
          = reminder +:+ (newline +:+ newline)
            +:+ user_content um +:+ (newline +:+ "        ")) as Hl
    by reflexivity.
  unfold reminder in Hl at 1. rewrite Hl. clear Hl.
  rewrite (rstrip_app reminder).
  rewrite (blank_app (newline +:+ newline)), (blank_app (user_content um)).
  change (blank (newline +:+ newline)) with true.
  change (blank (newline +:+ "        ")) with true.
  rewrite andb_true_l, andb_true_r.
  destruct (blank (user_content um)) eqn:Hb; [reflexivity|].
  rewrite (rstrip_app (newline +:+ newline)).
  rewrite (blank_app (user_content um)), Hb. cbn [andb].
  rewrite (rstrip_app (user_content um)).
  change (blank (newline +:+ "        ")) with true. cbn iota.
  reflexivity.
Qed.

(** ** Index map: order, contents and errors *)

Section DictOrder.
Context {V : Type}.
Implicit Types (d : dict V) (k : string) (v : V).

Lemma dict_set_fresh k v d :
  k ∉ dict_keys d → dict_set k v d = d ++ [(k, v)].
Proof.
  unfold dict_keys. induction d as [|[k0 v0] d IH]; cbn; intros Hk; [done|].
  apply not_elem_of_cons in Hk as [Hne Hk].
  case_decide; [congruence|]. by rewrite IH.
Qed.

Lemma fold_dict_set_fresh (l : list (string * V)) d :
  NoDup (dict_keys d ++ l.*1) →
  fold_left (λ d kv, dict_set kv.1 kv.2 d) l d = d ++ l.
Proof.
  revert d. induction l as [|[k v] l IH]; intros d Hnd; cbn [fold_left].
  - by rewrite app_nil_r.
  - cbn [fst snd]. rewrite fmap_cons in Hnd. cbn [fst] in Hnd.
    assert (k ∉ dict_keys d) as Hk.
    { apply NoDup_app in Hnd as (_ & Hd & _). intros Hin.
      apply (Hd k Hin). left. }
    rewrite dict_set_fresh by done. rewrite IH.
    + by rewrite <- app_assoc.
    + unfold dict_keys in *. rewrite fmap_app. cbn.
      by rewrite <- app_assoc.
Qed.

Lemma dict_of_pairs_fresh (l : list (string * V)) :
  NoDup l.*1 → dict_of_pairs l = l.
Proof. intros Hnd. by apply (fold_dict_set_fresh l []). Qed.


Lemma dict_get_set k k' v d :
  dict_get k' (dict_set k v d)
  = if decide (k = k') then Some v else dict_get k' d.
Proof.
  induction d as [|[k0 v0] d IH]; cbn.
  - by repeat case_decide.
  - repeat (case_decide; cbn; subst); try congruence; by rewrite ?IH.
Qed.

Lemma dict_get_of_pairs k v (l : list (string * V)) d :
  dict_get k (fold_left (λ d kv, dict_set kv.1 kv.2 d) l d) = Some v →
  (k, v) ∈ l ∨ dict_get k d = Some v.
Proof.
  revert d. induction l as [|[k0 v0] l IH]; intros d H; cbn in *; [by right|].
  apply IH in H as [H|H]; [left; by right|].
  rewrite dict_get_set in H. case_decide; simplify_eq; [left; left|by right].
Qed.
End DictOrder.

Section IndexMapMore.
Context `{C : Collaborators}.

Lemma bind_assoc {W A B D} (m : M W A) (f : A → M W B) (g : B → M W D) w :
  bind (bind m f) g w = bind m (λ a, bind (f a) g) w.
Proof.
  unfold bind. destruct (m w) as [[a|e] w1]; [|done].
  by destruct (f a w1) as [[b|e] w2].
Qed.

Lemma bind_ext {W A B} (m : M W A) (f g : A → M W B) w :
  (∀ a w', f a w' = g a w') → bind m f w = bind m g w.
Proof. intros H. unfold bind. by destruct (m w) as [[a|e] w1]. Qed.

Lemma bind_cong_l {W A B} (m m' : M W A) (f : A → M W B) w :
  m w = m' w → bind m f w = bind m' f w.
Proof. intros H. unfold bind. by rewrite H. Qed.

(** One turn of the rebuild loop. *)
Definition rebuild_step (ctx : StorageContext) (doc : Document)
    (doc_id_to_index : dict VectorStoreIndex)
  : M World (dict VectorStoreIndex) :=
  bind (fetch_and_read_document doc) (λ llama_index_docs,
  bind (docstore_add_documents ctx llama_index_docs) (λ _,
  bind (VectorStoreIndex_from_documents llama_index_docs ctx) (λ index,
  bind (StorageContext_persist
          (index_storage_context (set_index_id index (uuid_str (id doc)))))
       (λ _,
  ret (dict_set (uuid_str (id doc))
         (set_index_id index (uuid_str (id doc))) doc_id_to_index))))).

Lemma rebuild_indices_cons ctx doc rest d w :
  rebuild_indices ctx (doc :: rest) d w
  = bind (rebuild_step ctx doc d) (rebuild_indices ctx rest) w.
Proof.
  cbn [rebuild_indices]. unfold rebuild_step.
  rewrite !bind_assoc. apply bind_ext. intros docs w1.
  rewrite !bind_assoc. apply bind_ext. intros [] w2.
  rewrite !bind_assoc. apply bind_ext. intros index w3.
  rewrite !bind_assoc. apply bind_ext. intros [] w4.
  done.
Qed.

Lemma rebuild_indices_app ctx pre post d w :
  rebuild_indices ctx (pre ++ post) d w
  = bind (rebuild_indices ctx pre d) (rebuild_indices ctx post) w.
Proof.
  revert d w. induction pre as [|doc pre IH]; intros d w; [done|].
  change ((doc :: pre) ++ post) with (doc :: (pre ++ post)).
  rewrite rebuild_indices_cons.
  rewrite (bind_cong_l _ _ _ _ (rebuild_indices_cons ctx doc pre d w)).
  rewrite bind_assoc. apply bind_ext. intros d' w'. apply IH.
Qed.

(** X4. In the rebuild branch a document whose download fails aborts the
    whole build with that error: the documents before it have been fetched
    and indexed, those after it are not touched, and no mapping is
    returned. *)
Theorem rebuild_aborts_on_failed_fetch ctx pre doc post d w d1 w1 e w2 :
  rebuild_indices ctx pre d w = (Ok d1, w1) →
  requests_get (url doc) w1 = (Raise e, w2) →
  rebuild_indices ctx (pre ++ doc :: post) d w = (Raise e, w2).
Proof.
  intros Hpre Hget. rewrite rebuild_indices_app. unfold bind at 1.
  rewrite Hpre, rebuild_indices_cons.
  unfold rebuild_step, fetch_and_read_document, bind. by rewrite Hget.
Qed.

(** X5. An exception of [get_storage_context] other than
    [FileNotFoundError] and [ValueError] leaves
    [build_doc_id_to_index_map] as it is: nothing is loaded or rebuilt. *)
Theorem storage_context_error_propagates docs w vs w1 e w2 :
  get_vector_store_singleton w = (Ok vs, w1) →
  get_storage_context vs w1 = (Raise e, w2) →
  e ≠ FileNotFoundError → e ≠ ValueError →
  build_doc_id_to_index_map docs w = (Raise e, w2).
Proof.
  intros Hvs Hctx Hfnf Hve.
  unfold build_doc_id_to_index_map, bind, try_except.
  rewrite Hvs, Hctx. by repeat case_decide.
Qed.

(** X6. When the storage context is not found, a fresh one is created and
    persisted at once, and the indices are loaded from it: the mapping
    returned pairs the document ids with the indices loaded. *)
Theorem missing_storage_context_is_created docs w vs w1 w2 ctx w3 w4
    indices w5 :
  get_vector_store_singleton w = (Ok vs, w1) →
  get_storage_context vs w1 = (Raise FileNotFoundError, w2) →
  StorageContext_from_defaults false vs w2 = (Ok ctx, w3) →
  StorageContext_persist ctx w3 = (Ok tt, w4) →
  load_indices_from_storage ctx (doc_ids docs) w4 = (Ok indices, w5) →
  build_doc_id_to_index_map docs w
  = (Ok (dict_of_pairs (zip (doc_ids docs) indices)), w5).
Proof.
  intros Hvs Hctx Hnew Hpersist Hload.
  unfold build_doc_id_to_index_map, bind, try_except, ret.
  fold (doc_ids docs). rewrite Hvs, Hctx. case_decide; [|done].
  by rewrite Hnew, Hpersist, Hload.
Qed.

(** X7. A [ValueError] raised anywhere in the load branch starts the full
    rebuild, whether it comes from loading the indices or already from
    obtaining the storage context. *)
Theorem value_error_starts_rebuild docs w vs w1 :
  get_vector_store_singleton w = (Ok vs, w1) →
  (∀ w2, get_storage_context vs w1 = (Raise ValueError, w2) →
         build_doc_id_to_index_map docs w
         = bind (StorageContext_from_defaults true vs)
                (λ ctx', rebuild_indices ctx' docs []) w2)
  ∧ (∀ ctx w2 w3,
       get_storage_context vs w1 = (Ok ctx, w2) →
       load_indices_from_storage ctx (doc_ids docs) w2
       = (Raise ValueError, w3) →
       build_doc_id_to_index_map docs w
       = bind (StorageContext_from_defaults true vs)
              (λ ctx', rebuild_indices ctx' docs []) w3).
Proof.
  intros Hvs. split.
  - intros w2 Hctx.
    unfold build_doc_id_to_index_map, bind, try_except.
    rewrite Hvs, Hctx. by repeat case_decide.
  - intros ctx w2 w3 Hctx Hload.
    unfold build_doc_id_to_index_map, bind, try_except, ret.
    fold (doc_ids docs). by rewrite Hvs, Hctx, Hload.
Qed.

Lemma rebuild_indices_order ctx docs d w m w' :
  NoDup (dict_keys d ++ doc_ids docs) →
  rebuild_indices ctx docs d w = (Ok m, w') →
  dict_keys m = dict_keys d ++ doc_ids docs.
Proof.
  revert d w. induction docs as [|doc docs IH]; intros d w Hnd H.
  - cbn in H. unfold ret in H. simplify_eq. cbn. by rewrite app_nil_r.
  - rewrite rebuild_indices_cons in H. unfold bind at 1 in H.
    destruct (rebuild_step ctx doc d w) as [[d1|e] w1] eqn:Hstep; [|done].
    unfold rebuild_step, bind, ret in Hstep.
    repeat (case_match; simplify_eq).
    cbn [doc_ids map] in Hnd |- *. fold (doc_ids docs) in Hnd |- *.
    assert (uuid_str (id doc) ∉ dict_keys d) as Hfresh.
    { apply NoDup_app in Hnd as (_ & Hd & _). intros Hin.
      apply (Hd _ Hin). left. }
    apply IH in H.
    + rewrite H, dict_set_fresh by done. unfold dict_keys.
      rewrite fmap_app. cbn. by rewrite <- app_assoc.
    + rewrite dict_set_fresh by done. unfold dict_keys in *.
      rewrite fmap_app. cbn. by rewrite <- app_assoc.
Qed.

Lemma build_keys_order docs w m w' :
  load_contract → NoDup (doc_ids docs) →
  build_doc_id_to_index_map docs w = (Ok m, w') →
  dict_keys m = doc_ids docs.
Proof.
  intros Hload Hnd H. unfold build_doc_id_to_index_map in H.
  fold (doc_ids docs) in H. run_cases H;
    try (match goal with
         | H : rebuild_indices _ _ _ _ = _ |- _ =>
             by apply rebuild_indices_order in H
         end);
    match goal with
    | H : load_indices_from_storage _ _ _ = _ |- _ => apply Hload in H
    end;
    (rewrite dict_of_pairs_fresh;
     [unfold dict_keys; rewrite fst_zip; [done|lia]
     |rewrite fst_zip; [done|lia]]).
Qed.

Lemma rebuild_indices_own_id ctx docs d w m w' :
  rebuild_indices ctx docs d w = (Ok m, w') →
  Forall (λ kv, ∃ index, kv.2 = set_index_id index kv.1) d →
  Forall (λ kv, ∃ index, kv.2 = set_index_id index kv.1) m.
Proof.
  revert d w. induction docs as [|doc docs IH]; intros d w H Hd.
  - cbn in H. unfold ret in H. by simplify_eq.
  - rewrite rebuild_indices_cons in H. unfold bind at 1 in H.
    destruct (rebuild_step ctx doc d w) as [[d1|e] w1] eqn:Hstep; [|done].
    unfold rebuild_step, bind, ret in Hstep.
    repeat (case_match; simplify_eq).
    apply IH in H; [done|].
    clear -Hd. induction Hd as [|[k0 v0] d Hk Hd IHd]; cbn.
    + constructor; [|done]. cbn. eauto.
    + case_decide; subst; constructor; cbn; eauto.
Qed.

(** X8. Every index that the rebuild branch stores in the mapping carries,
    as its own index id, the key it is stored under. *)
Theorem rebuilt_index_has_its_key ctx docs w m w' k index :
  rebuild_indices ctx docs [] w = (Ok m, w') →
  (k, index) ∈ m →
  ∃ index0, index = set_index_id index0 k.
Proof.
  intros H Hin.
  pose proof (rebuild_indices_own_id _ _ _ _ _ _ H (Forall_nil_2 _)) as Hall.
  rewrite Forall_forall in Hall. apply (Hall _ Hin).
Qed.

End IndexMapMore.

(** Collaborators that follow a script: what [get_storage_context] raises,
    whether the indices load, and the URL that cannot be fetched. *)
Record Script : Type := {
  storage_outcome : option exn;
  indices_load : bool;
  unreachable : option string
}.

Definition scripted (s : Script) : Collaborators :=
  {| World := list string;
     VectorStore := unit;
     StorageContext := unit;
     VectorStoreIndex := string;
     LlamaIndexDocument := string;
     get_vector_store_singleton := λ w, (Ok tt, w);
     get_storage_context := λ _ w,
       match storage_outcome s with
       | Some e => (Raise e, (w ++ ["get_storage_context"])%list)
       | None => (Ok tt, (w ++ ["get_storage_context"])%list)
       end;
     StorageContext_from_defaults := λ _ _ w,
       (Ok tt, (w ++ ["from_defaults"])%list);
     StorageContext_persist := λ _ w, (Ok tt, (w ++ ["persist"])%list);
     load_indices_from_storage := λ _ ids w,
       if indices_load s then (Ok ids, (w ++ ["load"])%list)
       else (Raise ValueError, (w ++ ["load"])%list);
     requests_get := λ url w,
       if decide (unreachable s = Some url)
       then (Raise HTTPError, (w ++ ["GET " +:+ url])%list)
       else (Ok url, (w ++ ["GET " +:+ url])%list);
     PDFReader_load_data := λ _ doc_id w, (Ok [doc_id], w);
     docstore_add_documents := λ _ _ w, (Ok tt, w);
     VectorStoreIndex_from_documents := λ _ _ w, (Ok EmptyString, w);
     set_index_id := λ _ index_id, index_id;
     index_storage_context := λ _, tt;
     build_title_for_document := url;
     api_tool_description := λ _, "An API tool." |}.

Definition notes_unreachable : Script :=
  {| storage_outcome := None; indices_load := false;
     unreachable := Some "https://example.com/notes.pdf" |}.

Definition storage_down : Script :=
  {| storage_outcome := Some HTTPError; indices_load := true;
     unreachable := None |}.

Definition storage_absent : Script :=
  {| storage_outcome := Some FileNotFoundError; indices_load := true;
     unreachable := None |}.

Definition storage_corrupt : Script :=
  {| storage_outcome := Some ValueError; indices_load := true;
     unreachable := None |}.

Definition nothing_stored : Script :=
  {| storage_outcome := None; indices_load := false; unreachable := None |}.

Lemma rebuild_aborts_on_failed_fetch_witness :
  rebuild_indices (C := scripted notes_unreachable) tt
    ([acme_filing] ++ plain_document :: [acme_filing]) [] []
  = (Raise HTTPError,
     ["GET https://example.com/acme.pdf"; "persist";
      "GET https://example.com/notes.pdf"]).
Proof.
  eapply (rebuild_aborts_on_failed_fetch (C := scripted notes_unreachable)).
  - vm_compute. reflexivity.
  - vm_compute. reflexivity.
Defined.

Lemma storage_context_error_propagates_witness :
  build_doc_id_to_index_map (C := scripted storage_down) demo_documents []
  = (Raise HTTPError, ["get_storage_context"]).
Proof.
  eapply (storage_context_error_propagates (C := scripted storage_down)).
  - reflexivity.
  - reflexivity.
  - discriminate.
  - discriminate.
Defined.

Lemma missing_storage_context_is_created_witness :
  build_doc_id_to_index_map (C := scripted storage_absent) demo_documents []
  = (Ok (dict_of_pairs (zip (doc_ids demo_documents) (doc_ids demo_documents))),
     ["get_storage_context"; "from_defaults"; "persist"; "load"]).
Proof.
  eapply (missing_storage_context_is_created (C := scripted storage_absent));
    reflexivity.
Defined.

Lemma value_error_starts_rebuild_witness :
  build_doc_id_to_index_map (C := scripted storage_corrupt) demo_documents []
  = bind (@StorageContext_from_defaults (scripted storage_corrupt) true tt)
         (λ ctx', rebuild_indices ctx' demo_documents [])
         ["get_storage_context"].
Proof.
  apply (proj1 (value_error_starts_rebuild (C := scripted storage_corrupt)
                  demo_documents [] tt [] eq_refl)).
  reflexivity.
Defined.

Lemma rebuilt_index_has_its_key_witness :
  ∃ index0,
    "00000000-0000-0000-0000-000000000002"
    = @set_index_id (scripted nothing_stored) index0
        "00000000-0000-0000-0000-000000000002".
Proof.
  eapply (rebuilt_index_has_its_key (C := scripted nothing_stored)
            tt demo_documents []).
  - vm_compute. reflexivity.
  - right. left.
Defined.

(** ** Tool sets: order, scope and failure *)

Section ToolsMore.
Context `{C : Collaborators}.

Lemma build_keys_subset docs w m w' k :
  build_doc_id_to_index_map docs w = (Ok m, w') →
  k ∈ dict_keys m → k ∈ doc_ids docs.
Proof.
  intros H Hk. unfold build_doc_id_to_index_map in H.
  fold (doc_ids docs) in H.
  assert (k ∈ dict_keyset m) as Hset by (by apply elem_of_list_to_set).
  run_cases H;
    try (match goal with
         | H : rebuild_indices _ _ _ _ = _ |- _ =>
             apply rebuild_indices_keys in H as [Hkeys _];
             rewrite Hkeys in Hset; unfold dict_keyset in Hset; cbn in Hset;
             set_solver
         end);
    rewrite dict_of_pairs_keyset in Hset;
    apply elem_of_list_to_set, list_elem_of_fmap in Hset
      as ([k' index] & -> & Hin);
    by apply elem_of_zip_l in Hin.
Qed.




(** X10. When the documents of a conversation have pairwise distinct ids,
    the qualitative tools come in the order of the conversation's
    documents, one per document. *)
Theorem qualitative_tools_in_document_order conv w agent w' :
  load_contract →
  NoDup (doc_ids (documents conv)) →
  get_chat_engine conv w = (Ok agent, w') →
  ∃ qualitative quantitative,
    tools agent = [qualitative; quantitative]
    ∧ map tool_name (query_engine_tools qualitative)
      = doc_ids (documents conv).
Proof.
  intros Hload Hnd H. unfold get_chat_engine in H. unfold bind at 1 in H.
  destruct (build_doc_id_to_index_map (documents conv) w)
    as [[m|e] w1] eqn:Hbuild; [|done].
  unfold bind, lift, ret in H.
  destruct (vector_query_engine_tools m _) as [vector_tools|e] eqn:Hv; [|done].
  simplify_eq. eexists _, _. split; [reflexivity|]. cbn.
  apply vector_query_engine_tools_names in Hv. rewrite Hv.
  by eapply build_keys_order.
Qed.

(** X11. For a conversation without documents, once the index map is built
    the agent is assembled with no qualitative and no quantitative tool,
    with the sentence "No documents selected." in place of the document
    titles, and with the history of the conversation's messages. *)
Theorem no_documents_no_tools conv w m w1 :
  documents conv = [] →
  build_doc_id_to_index_map [] w = (Ok m, w1) →
  ∃ agent,
    get_chat_engine conv w = (Ok agent, w1)
    ∧ map query_engine_tools (tools agent) = [[]; []]
    ∧ doc_titles agent = "No documents selected."
    ∧ chat_history agent = get_chat_history (messages conv).
Proof.
  intros Hdocs Hbuild.
  assert (m = []) as ->.
  { destruct m as [|[k index] m]; [done|].
    assert (k ∈ doc_ids []) as Hk
      by (eapply build_keys_subset; [exact Hbuild|left]).
    by apply elem_of_nil in Hk. }
  unfold get_chat_engine. rewrite Hdocs. unfold bind at 1. rewrite Hbuild.
  eexists. split; [reflexivity|]. by cbn.
Qed.

Lemma vector_query_engine_tools_shape items id_to_doc tl :
  vector_query_engine_tools items id_to_doc = Ok tl →
  Forall (λ t, ∃ index doc,
            dict_get (tool_name t) id_to_doc = Some doc
            ∧ query_engine t
              = CitationQueryEngine
                  {| retriever_index := index; similarity_top_k := 3;
                     filter_key := DB_DOC_ID_KEY;
                     filter_value := tool_name t |} 512
            ∧ description (metadata t) = build_description_for_document doc)
         tl.
Proof.
  revert tl. induction items as [|[doc_id index] items IH]; intros tl H.
  - cbn in H. simplify_eq. constructor.
  - cbn [vector_query_engine_tools] in H. unfold rbind, dict_item in H.
    destruct (dict_get doc_id id_to_doc) as [doc|] eqn:Hdoc; [|done].
    destruct (vector_query_engine_tools items id_to_doc) as [tl'|]; [|done].
    simplify_eq. constructor; [|by apply IH].
    exists index, doc. by cbn.
Qed.

(** X12. Every qualitative tool is a citation query engine over a retriever
    that takes the 3 nearest neighbours among the nodes whose
    [db_document_id] equals the tool's name, with citation chunks of 512;
    its name is the id of one of the conversation's documents and its
    description is that document's description. *)
Theorem qualitative_tool_is_scoped conv w agent w' qualitative t :
  get_chat_engine conv w = (Ok agent, w') →
  head (tools agent) = Some qualitative →
  t ∈ query_engine_tools qualitative →
  ∃ index doc,
    query_engine t
    = CitationQueryEngine
        {| retriever_index := index; similarity_top_k := 3;
           filter_key := "db_document_id";
           filter_value := tool_name t |} 512
    ∧ doc ∈ documents conv
    ∧ tool_name t = uuid_str (id doc)
    ∧ description (metadata t) = build_description_for_document doc.
Proof.
  intros H Hhead Ht. unfold get_chat_engine in H. unfold bind at 1 in H.
  destruct (build_doc_id_to_index_map (documents conv) w)
    as [[m|e] w1] eqn:Hbuild; [|done].
  unfold bind, lift, ret in H.
  destruct (vector_query_engine_tools m _) as [vector_tools|e] eqn:Hv; [|done].
  simplify_eq. cbn in Hhead. simplify_eq. cbn in Ht.
  apply vector_query_engine_tools_shape in Hv.
  rewrite Forall_forall in Hv.
  destruct (Hv t Ht) as (index & doc & Hget & Hengine & Hdescr).
  exists index, doc. split; [done|].
  apply (dict_get_of_pairs _ _ _ []) in Hget as [Hin|Hin]; [|done].
  apply list_elem_of_fmap in Hin as (doc' & Heq & Hdoc'). by simplify_eq.
Qed.

End ToolsMore.

Definition empty_conversation : Conversation :=
  {| documents := []; messages := [tied_user] |}.


Lemma qualitative_tools_in_document_order_witness :
  ∃ agent w',
    demo_engine_outcome = (Ok agent, w')
    ∧ ∃ qualitative quantitative,
        tools agent = [qualitative; quantitative]
        ∧ map tool_name (query_engine_tools qualitative)
          = doc_ids demo_documents.
Proof.
  eexists _, _. split; [reflexivity|].
  eapply (qualitative_tools_in_document_order (C := demo_collaborators true)
            demo_conversation []).
  - apply demo_load_contract.
  - apply (bool_decide_unpack _). vm_compute. exact I.
  - vm_compute. reflexivity.
Defined.

Lemma no_documents_no_tools_witness :
  ∃ agent,
    get_chat_engine (C := demo_collaborators true) empty_conversation []
    = (Ok agent, ["get_storage_context"; "load"])
    ∧ map query_engine_tools (tools agent) = [[]; []]
    ∧ doc_titles agent = "No documents selected."
    ∧ chat_history agent = get_chat_history [tied_user].
Proof.
  eapply (no_documents_no_tools (C := demo_collaborators true)
            empty_conversation []).
  - reflexivity.
  - vm_compute. reflexivity.
Defined.

Definition acme_tool : @QueryEngineTool (demo_collaborators true) :=
  @Build_QueryEngineTool (demo_collaborators true)
    (@CitationQueryEngine (demo_collaborators true)
       (@Build_Retriever (demo_collaborators true)
          "00000000-0000-0000-0000-000000000001" 3 "db_document_id"
          "00000000-0000-0000-0000-000000000001")
       512)
    {| name := "00000000-0000-0000-0000-000000000001";
       description :=
         "A SEC 10-Q filing describing the financials of Acme Corp (ACME) for the 2023 Q1 time period." |}.

Lemma qualitative_tool_is_scoped_witness :
  ∃ index doc,
    query_engine acme_tool
    = CitationQueryEngine
        {| retriever_index := index; similarity_top_k := 3;
           filter_key := "db_document_id";
           filter_value := tool_name acme_tool |} 512
    ∧ doc ∈ demo_documents
    ∧ tool_name acme_tool = uuid_str (id doc)
    ∧ description (metadata acme_tool)
      = build_description_for_document doc.
Proof.
  eapply (qualitative_tool_is_scoped (C := demo_collaborators true)
            demo_conversation []).
  - vm_compute. reflexivity.
  - reflexivity.
  - left.
Defined.

(** ** Event translator: shadowing, composition and edge cases *)

Section TranslatorMore.
Context `{X : Externals}.

(** X13. A response entry in the payload decides the metadata alone: the
    event kind no longer matters, and when the entry is not a response
    object (it lacks [source_nodes] or [response]) there is no metadata at
    all, even for a sub-question event whose payload carries the
    sub-question, or a function-call event with its output. *)
Theorem response_entry_shadows_other_shapes p v :
  dict_get EventPayload.RESPONSE p = Some v →
  (∀ t t' b b',
     get_metadata_from_event t (Some p) b
     = get_metadata_from_event t' (Some p) b')
  ∧ (hasattr v "source_nodes" && hasattr v "response" = false →
     ∀ t b, get_metadata_from_event t (Some p) b = Ok []).
Proof.
  intros Hv. split.
  - intros t t' b b'. unfold get_metadata_from_event, dict_mem.
    by rewrite Hv.
  - intros Hattrs t b. unfold get_metadata_from_event, dict_mem.
    rewrite Hv. cbn [default from_option Datatypes.id]. by rewrite Hattrs.
Qed.

Lemma extract_citations_app_eq nodes1 nodes2 acc :
  extract_citations (nodes1 ++ nodes2) acc
  = rbind (extract_citations nodes1 acc) (extract_citations nodes2).
Proof.
  revert acc. induction nodes1 as [|n nodes1 IH]; intros acc; [done|].
  cbn. destruct (citation_of_node n) as [c|e]; [|done]. cbn. apply IH.
Qed.

Lemma extract_citations_grows nodes acc cs :
  extract_citations nodes acc = Ok cs →
  ∃ new, cs = acc ++ new ∧ (length new ≤ length nodes)%nat.
Proof.
  revert acc. induction nodes as [|n nodes IH]; intros acc H.
  - cbn in H. simplify_eq. exists []. by rewrite app_nil_r.
  - cbn in H. destruct (citation_of_node n) as [[c|]|e]; [| |done]; cbn in H.
    + apply IH in H as (new & -> & Hlen). exists (c :: new).
      rewrite <- app_assoc. split; [done|cbn; lia].
    + apply IH in H as (new & -> & Hlen). exists new. split; [done|cbn; lia].
Qed.

(** X14. Citations are extracted node by node, in order: extracting from
    two lists of nodes one after the other is extracting from their
    concatenation, the citations already gathered are kept in front, and
    each node adds at most one. *)
Theorem extract_citations_in_order nodes1 nodes2 acc :
  extract_citations (nodes1 ++ nodes2) acc
  = rbind (extract_citations nodes1 acc) (extract_citations nodes2)
  ∧ ∀ cs, extract_citations (nodes1 ++ nodes2) acc = Ok cs →
          ∃ new1 new2,
            extract_citations nodes1 acc = Ok (acc ++ new1)
            ∧ cs = acc ++ new1 ++ new2
            ∧ (length new1 ≤ length nodes1)%nat
            ∧ (length new2 ≤ length nodes2)%nat.
Proof.
  split; [apply extract_citations_app_eq|].
  intros cs H. rewrite extract_citations_app_eq in H.
  destruct (extract_citations nodes1 acc) as [cs1|e] eqn:H1; [|done].
  cbn in H.
  apply extract_citations_grows in H1 as (new1 & -> & Hl1).
  apply extract_citations_grows in H as (new2 & -> & Hl2).
  exists new1, new2. by rewrite <- app_assoc.
Qed.




End TranslatorMore.

Definition shadowed_payload : dict PyVal :=
  [("sub_question", PStr "What changed?"); ("response", PStr "Revenue grew.")].

Lemma response_entry_shadows_other_shapes_witness :
  get_metadata_from_event (X := demo_externals true [])
    SUB_QUESTION (Some shadowed_payload) false
  = Ok [].
Proof.
  apply (proj2 (response_entry_shadows_other_shapes
                  (X := demo_externals true [])
                  shadowed_payload (PStr "Revenue grew.") eq_refl)).
  reflexivity.
Defined.

Lemma extract_citations_in_order_witness :
  ∃ new1 new2,
    extract_citations [page_roman] [] = Ok ([] ++ new1)
    ∧ [PDict [("document_id", PStr "doc-1"); ("page_number", PInt 3);
              ("text", PStr "Revenue grew.")]]
      = [] ++ new1 ++ new2
    ∧ (length new1 ≤ length [page_roman])%nat
    ∧ (length new2 ≤ length [page_three])%nat.
Proof.
  apply (proj2 (extract_citations_in_order [page_roman] [page_three] [])).
  reflexivity.
Defined.




(** ** Streaming dispatcher: closure, failures and snapshots *)

Section DispatcherMore.
Context `{X : Externals}.

Lemma task_contents event_type payload event_id is_start_event c st :
  contents
    (sent (create_task
             (async_on_event event_type payload event_id is_start_event c)
             st))
  = contents (sent st).
Proof.
  unfold create_task, async_on_event, send_nowait.
  destruct (get_metadata_from_event _ _ _); [|done].
  destruct (source_by_name event_type); [|done].
  destruct (_closed st) eqn:Hc; [done|].
  destruct c; cbn; [done|]. rewrite Hc. cbn [sent].
  rewrite contents_app. cbn. apply app_nil_r.
Qed.

Lemma run_env_contents steps st :
  contents (sent (run_env steps st)) = contents (sent st).
Proof.
  revert st. induction steps as [|e steps IH]; intros st; [done|].
  change (run_env (e :: steps) st) with (run_env steps (run_env_step e st)).
  rewrite IH. destruct e; [done|apply task_contents..].
Qed.

Lemma task_closed_sent event_type payload event_id is_start_event c st :
  _closed st = true →
  sent (create_task
          (async_on_event event_type payload event_id is_start_event c) st)
  = sent st.
Proof.
  intros Hc. unfold create_task, async_on_event.
  destruct (get_metadata_from_event _ _ _); [|done].
  destruct (source_by_name event_type); [|done].
  by rewrite Hc.
Qed.

(** X16. Once the send stream is closed it stays closed, and whatever
    callbacks arrive afterwards deliver nothing on it. *)
Theorem callbacks_after_close_deliver_nothing steps st :
  _closed st = true →
  sent (run_env steps st) = sent st ∧ _closed (run_env steps st) = true.
Proof.
  intros Hc. split; [|by apply run_env_closed].
  revert st Hc. induction steps as [|e steps IH]; intros st Hc; [done|].
  change (run_env (e :: steps) st) with (run_env steps (run_env_step e st)).
  rewrite IH by (by apply run_env_step_closed).
  destruct e; [done|by apply task_closed_sent..].
Qed.

(** X17. A callback whose metadata and source are found never lets the
    closure of the stream out as an error: if the stream is closed before
    its test of [_closed], or gets closed while it is suspended in the send,
    the record is dropped, one log record is written and the coroutine
    returns normally. *)
Theorem async_on_event_survives_closure
    event_type payload event_id is_start_event closed_meanwhile st m source :
  get_metadata_from_event event_type payload is_start_event = Ok m →
  source_by_name event_type = Some source →
  _closed st = true ∨ closed_meanwhile = true →
  ∃ st' record,
    async_on_event event_type payload event_id is_start_event
      closed_meanwhile st = (Ok tt, st')
    ∧ sent st' = sent st
    ∧ _closed st' = true
    ∧ log st' = log st ++ [record]
    ∧ record
      = if _closed st
        then LogDebug "Received event after send channel closed. Ignoring."
        else LogException
               "Tried sending SubProcess event %s after channel was closed"
               source.
Proof.
  intros Hm Hsrc Hclosed. unfold async_on_event. rewrite Hm, Hsrc.
  destruct (_closed st) eqn:Hc.
  - eexists _, _. split; [reflexivity|]. by cbn.
  - destruct Hclosed as [?| ->]; [done|]. cbn.
    eexists _, _. split; [reflexivity|]. by cbn.
Qed.

Definition quiet_pair (p : list env_step * list env_step) : Prop :=
  quiet p.1 ∧ quiet p.2.

Lemma before_exhaustion_reaches_loop
    conv um uuid sched w st agent w1 tokens w2 msgs :
  open_with msgs st →
  quiet (during_get_chat_engine sched) →
  quiet (during_first_send sched) →
  quiet (during_astream_chat sched) →
  get_chat_engine conv w = (Ok agent, w1) →
  astream_chat agent (templated um) w1 = (Ok tokens, w2) →
  ∃ st4, open_with msgs st4
         ∧ before_exhaustion conv um uuid sched (w, st)
           = consume tokens (during_tokens sched) EmptyString (w2, st4).
Proof.
  intros Hst Hq1 Hq2 Hq3 Hengine Hstream.
  pose proof (run_env_quiet _ _ _ Hq1 Hst) as Hst1.
  destruct (send_open (during_first_send sched)
              (SubProcess {| event_id := uuid_str uuid; has_ended := true;
                             source := CONSTRUCTED_QUERY_ENGINE;
                             metadata_map := None |})
              msgs w1 _ Hq2 Hst1) as (st2 & Hsend & Hst2).
  cbn in Hst2. rewrite app_nil_r in Hst2.
  destruct (debug_open "Engine received" msgs w1 st2 Hst2)
    as (st3 & Hdebug & Hst3).
  pose proof (run_env_quiet _ _ _ Hq3 Hst3) as Hst4.
  eexists. split; [exact Hst4|].
  unfold before_exhaustion.
  unfold bind at 1. unfold await at 1, on_world at 1. cbn [fst snd].
  rewrite Hengine.
  unfold bind at 1. rewrite Hsend.
  unfold bind at 1. rewrite Hdebug.
  unfold bind at 1. unfold await at 1, on_world at 1. cbn [fst snd].
  by rewrite Hstream.
Qed.

Lemma consume_app_quiet pre rest steps acc msgs w st :
  Forall quiet_pair (take (length pre) steps) →
  open_with msgs st →
  ∃ st1, open_with (msgs ++ snapshots acc pre) st1
         ∧ consume (pre ++ rest) steps acc (w, st)
           = consume rest (drop (length pre) steps) (accumulate acc pre)
               (w, st1).
Proof.
  revert steps acc msgs st.
  induction pre as [|text pre IH]; intros steps acc msgs st Hq Hst.
  - exists st. cbn. by rewrite app_nil_r, drop_0.
  - assert (quiet (default ([], []) (head steps)).1
            ∧ quiet (default ([], []) (head steps)).2
            ∧ Forall quiet_pair (take (length pre) (tail steps)))
      as (Hw & Hs & Hrest).
    { destruct steps as [|p steps]; cbn in *.
      - rewrite take_nil. split_and!; constructor.
      - apply Forall_cons in Hq as [[? ?] ?]. done. }
    change ((text :: pre) ++ rest) with (text :: (pre ++ rest)).
    cbn [consume].
    destruct (default ([], []) (head steps)) as [waiting sending].
    cbn [fst snd] in Hw, Hs.
    pose proof (run_env_quiet _ _ _ Hw Hst) as Hst1.
    destruct (send_open sending
                (Message {| content := acc +:+ text |}) msgs w _ Hs Hst1)
      as (st2 & Hsend & Hst2).
    destruct (IH (tail steps) (acc +:+ text) _ st2 Hrest Hst2)
      as (st3 & Hst3 & Hrun).
    exists st3. split.
    + cbn [snapshots]. cbn in Hst3. by rewrite <- app_assoc in Hst3.
    + unfold bind at 1. unfold await at 1. cbn [fst snd ret].
      unfold bind at 1. unfold on_chan at 1. cbn [fst snd].
      destruct Hst1 as [-> _]. unfold bind at 1. rewrite Hsend, Hrun.
      cbn [length accumulate].
      destruct steps; cbn [tail drop]; [by rewrite drop_nil|done].
Qed.

Lemma consume_closed_while_waiting text rest steps waiting sending acc w st :
  head steps = Some (waiting, sending) →
  EnvClose ∈ waiting →
  consume (text :: rest) steps acc (w, st)
  = (Ok None,
     (w, logger
           (LogDebug
              "Received streamed token after send channel closed. Ignoring.")
           (run_env waiting st))).
Proof.
  intros Hhead Hclose. cbn [consume]. rewrite Hhead.
  change (default ([], []) (Some (waiting, sending)))
    with (waiting, sending).
  cbn beta iota.
  unfold bind at 1. unfold await at 1. cbn [fst snd ret].
  unfold bind at 1. unfold on_chan at 1. cbn [fst snd].
  by rewrite (run_env_close _ _ Hclose).
Qed.

Lemma consume_closed_in_send
    text rest steps waiting sending acc msgs w st :
  head steps = Some (waiting, sending) →
  quiet waiting → open_with msgs st →
  EnvClose ∈ sending →
  consume (text :: rest) steps acc (w, st)
  = (Raise ClosedResourceError,
     (w, run_env sending (run_env waiting st))).
Proof.
  intros Hhead Hq Hst Hclose. cbn [consume]. rewrite Hhead.
  change (default ([], []) (Some (waiting, sending)))
    with (waiting, sending).
  cbn beta iota.
  destruct (run_env_quiet _ _ _ Hq Hst) as [Hopen _].
  unfold bind at 1. unfold await at 1. cbn [fst snd ret].
  unfold bind at 1. unfold on_chan at 1. cbn [fst snd].
  rewrite Hopen. unfold bind at 1.
  by rewrite (send_closed _ _ _ _ (run_env_close _ _ Hclose)).
Qed.

(** X18. If the send stream is closed while the dispatcher waits for a
    fragment, the fragment is dropped when it arrives:
    [handle_chat_message] returns normally after the snapshots of the
    earlier fragments, sends neither a further snapshot nor the fallback
    message, and its last log record tells of the ignored fragment. *)
Theorem closure_between_fragments_stops_cleanly
    conv um uuid sched w st agent w1 pre text post w2 msgs waiting sending :
  open_with msgs st →
  quiet (during_get_chat_engine sched) →
  quiet (during_first_send sched) →
  quiet (during_astream_chat sched) →
  Forall quiet_pair (take (length pre) (during_tokens sched)) →
  during_tokens sched !! length pre = Some (waiting, sending) →
  EnvClose ∈ waiting →
  get_chat_engine conv w = (Ok agent, w1) →
  astream_chat agent (templated um) w1 = (Ok (pre ++ text :: post), w2) →
  ∃ st',
    handle_chat_message conv um uuid sched (w, st) = (Ok tt, (w2, st'))
    ∧ contents (sent st') = msgs ++ snapshots EmptyString pre
    ∧ last (log st')
      = Some (LogDebug
                "Received streamed token after send channel closed. Ignoring.").
Proof.
  intros Hst Hq1 Hq2 Hq3 Hq4 Hstep Hclose Hengine Hstream.
  destruct (before_exhaustion_reaches_loop conv um uuid sched _ _ _ _ _ _ _
              Hst Hq1 Hq2 Hq3 Hengine Hstream) as (st4 & Hst4 & Hrun).
  destruct (consume_app_quiet pre (text :: post) (during_tokens sched)
              EmptyString msgs w2 st4 Hq4 Hst4) as (st5 & [_ Hst5] & Hpre).
  rewrite handle_chat_message_unfold. unfold async_with.
  unfold bind at 1. rewrite Hrun, Hpre.
  rewrite (consume_closed_while_waiting _ _ _ waiting sending);
    [|by rewrite head_lookup, lookup_drop, Nat.add_0_r|done].
  eexists. split; [reflexivity|]. cbn [close logger sent log]. split.
  - by rewrite run_env_contents.
  - apply last_snoc.
Qed.

(** X19. If the send stream is closed while the dispatcher is suspended in
    the send of a snapshot, after its test of [_closed], the send raises
    [ClosedResourceError] out of [handle_chat_message]; the snapshots of the
    earlier fragments are all that was sent. *)
Theorem closure_during_snapshot_send_raises
    conv um uuid sched w st agent w1 pre text post w2 msgs waiting sending :
  open_with msgs st →
  quiet (during_get_chat_engine sched) →
  quiet (during_first_send sched) →
  quiet (during_astream_chat sched) →
  Forall quiet_pair (take (length pre) (during_tokens sched)) →
  during_tokens sched !! length pre = Some (waiting, sending) →
  quiet waiting →
  EnvClose ∈ sending →
  get_chat_engine conv w = (Ok agent, w1) →
  astream_chat agent (templated um) w1 = (Ok (pre ++ text :: post), w2) →
  ∃ st',
    handle_chat_message conv um uuid sched (w, st)
    = (Raise ClosedResourceError, (w2, st'))
    ∧ contents (sent st') = msgs ++ snapshots EmptyString pre.
Proof.
  intros Hst Hq1 Hq2 Hq3 Hq4 Hstep Hqw Hclose Hengine Hstream.
  destruct (before_exhaustion_reaches_loop conv um uuid sched _ _ _ _ _ _ _
              Hst Hq1 Hq2 Hq3 Hengine Hstream) as (st4 & Hst4 & Hrun).
  destruct (consume_app_quiet pre (text :: post) (during_tokens sched)
              EmptyString msgs w2 st4 Hq4 Hst4) as (st5 & Hst5 & Hpre).
  rewrite handle_chat_message_unfold. unfold async_with.
  unfold bind at 1. rewrite Hrun, Hpre.
  rewrite (consume_closed_in_send _ _ _ waiting sending _ _ _ _
             ltac:(by rewrite head_lookup, lookup_drop, Nat.add_0_r)
             Hqw Hst5 Hclose).
  eexists. split; [reflexivity|]. cbn [close sent].
  rewrite !run_env_contents. by destruct Hst5.
Qed.

Lemma task_sent_grows event_type payload event_id is_start_event c st :
  ∃ more,
    sent (create_task
            (async_on_event event_type payload event_id is_start_event c) st)
    = sent st ++ more.
Proof.
  unfold create_task, async_on_event, send_nowait.
  destruct (get_metadata_from_event _ _ _); [|by exists []; rewrite app_nil_r].
  destruct (source_by_name event_type); [|by exists []; rewrite app_nil_r].
  destruct (_closed st) eqn:Hc; [by exists []; rewrite app_nil_r|].
  destruct c; cbn; [by exists []; rewrite app_nil_r|].
  rewrite Hc. cbn. by eexists.
Qed.

Lemma run_env_sent_grows steps st :
  ∃ more, sent (run_env steps st) = sent st ++ more.
Proof.
  revert st. induction steps as [|e steps IH]; intros st.
  - exists []. by rewrite app_nil_r.
  - change (run_env (e :: steps) st) with (run_env steps (run_env_step e st)).
    destruct (IH (run_env_step e st)) as [more2 ->].
    assert (∃ more1, sent (run_env_step e st) = sent st ++ more1)
      as [more1 ->].
    { destruct e; [by exists []; rewrite app_nil_r|apply task_sent_grows..]. }
    exists (more1 ++ more2). by rewrite app_assoc.
Qed.

(** X20. A failure to build the chat engine leaves [handle_chat_message] as
    it is raised, before the dispatcher has sent anything, not even the
    record of the constructed query engine; the send stream is closed on the
    way out. *)
Theorem engine_failure_propagates conv um uuid sched w st e w1 :
  get_chat_engine conv w = (Raise e, w1) →
  ∃ st',
    handle_chat_message conv um uuid sched (w, st) = (Raise e, (w1, st'))
    ∧ st' = close (run_env (during_get_chat_engine sched) st)
    ∧ contents (sent st') = contents (sent st)
    ∧ _closed st' = true.
Proof.
  intros Hengine. eexists. split.
  - unfold handle_chat_message, async_with. unfold bind at 1.
    unfold await at 1, on_world at 1. cbn [fst snd]. by rewrite Hengine.
  - split; [done|]. split; [|done]. cbn [close sent].
    apply run_env_contents.
Qed.

(** X21. A failure of [astream_chat] leaves [handle_chat_message] as it is
    raised, after the record of the constructed query engine has been sent
    and before any streamed message. *)
Theorem stream_request_failure_propagates
    conv um uuid sched w st agent w1 e w2 msgs :
  open_with msgs st →
  quiet (during_get_chat_engine sched) →
  quiet (during_first_send sched) →
  get_chat_engine conv w = (Ok agent, w1) →
  astream_chat agent (templated um) w1 = (Raise e, w2) →
  ∃ st',
    handle_chat_message conv um uuid sched (w, st) = (Raise e, (w2, st'))
    ∧ contents (sent st') = msgs
    ∧ SubProcess {| event_id := uuid_str uuid; has_ended := true;
                    source := CONSTRUCTED_QUERY_ENGINE;
                    metadata_map := None |} ∈ sent st'.
Proof.
  intros Hst Hq1 Hq2 Hengine Hstream.
  pose proof (run_env_quiet _ _ _ Hq1 Hst) as [Hopen1 Hmsgs1].
  eexists. split.
  - unfold handle_chat_message, async_with. unfold bind at 1.
    unfold await at 1, on_world at 1. cbn [fst snd]. rewrite Hengine.
    unfold bind at 1. unfold send at 1, await at 1, on_chan at 1.
    cbn [fst snd]. unfold send_nowait.
    rewrite (proj1 (run_env_quiet _ _ _ Hq2 (conj Hopen1 Hmsgs1))).
    unfold bind at 1. unfold debug at 1, on_chan at 1. cbn [fst snd].
    unfold bind at 1. unfold await at 1, on_world at 1. cbn [fst snd].
    by rewrite Hstream.
  - cbn [close sent logger]. split.
    + rewrite run_env_contents. cbn [sent logger].
      rewrite contents_app, !run_env_contents. destruct Hst as [_ ->].
      cbn. apply app_nil_r.
    + match goal with
      | |- _ ∈ sent (run_env ?steps ?st0) =>
          destruct (run_env_sent_grows steps st0) as [more ->]
      end.
      cbn [sent]. apply elem_of_app. left. apply elem_of_app. right. left.
Qed.

Lemma str_append_nil_r s : s +:+ EmptyString = s.
Proof.
  induction s as [|c s IH]; [done|].
  change (String c s +:+ EmptyString) with (String c (s +:+ EmptyString)).
  by rewrite IH.
Qed.

Lemma str_append_assoc a b c : (a +:+ b) +:+ c = a +:+ (b +:+ c).
Proof.
  induction a as [|x a IH]; [done|].
  change (String x ((a +:+ b) +:+ c) = String x (a +:+ (b +:+ c))).
  by rewrite IH.
Qed.

Lemma concat_cons h t :
  String.concat EmptyString (h :: t) = h +:+ String.concat EmptyString t.
Proof. destruct t; [by rewrite str_append_nil_r|done]. Qed.

Lemma accumulate_concat acc tokens :
  accumulate acc tokens = acc +:+ String.concat EmptyString tokens.
Proof.
  revert acc. induction tokens as [|t tokens IH]; intros acc.
  - by rewrite str_append_nil_r.
  - cbn [accumulate]. by rewrite IH, concat_cons, str_append_assoc.
Qed.

Lemma snapshots_length acc tokens :
  length (snapshots acc tokens) = length tokens.
Proof.
  revert acc. induction tokens as [|t tokens IH]; intros acc; [done|].
  cbn. by rewrite IH.
Qed.

Lemma snapshots_lookup acc tokens i :
  (i < length tokens)%nat →
  snapshots acc tokens !! i = Some (accumulate acc (take (S i) tokens)).
Proof.
  revert acc i. induction tokens as [|t tokens IH]; intros acc i Hi.
  - cbn in Hi. lia.
  - destruct i as [|i]; [by destruct tokens|].
    cbn [snapshots take accumulate lookup list_lookup].
    apply IH. cbn in Hi. lia.
Qed.

(** X22. While nothing closes the send stream, the loop over the token
    stream sends one streamed message per fragment, and the message sent for
    a fragment is the concatenation of all the fragments up to it: every
    snapshot extends the one before it, and the text the loop ends with is
    the concatenation of all fragments. *)
Theorem snapshots_are_running_concatenations tokens steps msgs w st :
  Forall quiet_pair steps →
  open_with msgs st →
  ∃ st' snaps,
    consume tokens steps EmptyString (w, st)
    = (Ok (Some (String.concat EmptyString tokens)), (w, st'))
    ∧ contents (sent st') = msgs ++ snaps
    ∧ length snaps = length tokens
    ∧ ∀ i, (i < length tokens)%nat →
           snaps !! i
           = Some (String.concat EmptyString (take (S i) tokens)).
Proof.
  intros Hq Hst.
  destruct (consume_quiet tokens steps EmptyString msgs w st Hq Hst)
    as (st' & Hrun & [_ Hmsgs]).
  exists st', (snapshots EmptyString tokens).
  rewrite accumulate_concat in Hrun. split_and!; try done.
  - apply snapshots_length.
  - intros i Hi. by rewrite snapshots_lookup, accumulate_concat.
Qed.










End DispatcherMore.

(** Externals over the scripted collaborators; [stream] is the outcome of
    [astream_chat]. *)
Definition scripted_astream_chat (s : Script) (stream : result (list string))
  : @OpenAIAgent (scripted s) → string
    → M (@World (scripted s)) (list string) :=
  λ _ _ w, (stream, ((w : list string) ++ ["astream_chat"])%list).

Definition scripted_externals (s : Script) (stream : result (list string))
  : @Externals (scripted s) :=
  @Build_Externals (scripted s)
    (λ _, "<object>") "sub_question" Ok (option CBEventType)
    (λ t, Some (Some t)) None (scripted_astream_chat s stream).

Definition all_stored : Script :=
  {| storage_outcome := None; indices_load := true; unreachable := None |}.

Definition late_callbacks : list env_step :=
  [EnvEventEnd QUERY (Some []) "q1" false; EnvClose;
   EnvEventStart SUB_QUESTION (Some sub_question_payload) "s1" false].

Lemma callbacks_after_close_deliver_nothing_witness :
  sent (run_env (X := demo_externals true []) late_callbacks
          (close open_state))
  = sent (close (open_state (X := demo_externals true [])))
  ∧ _closed (run_env (X := demo_externals true []) late_callbacks
               (close open_state)) = true.
Proof.
  apply (callbacks_after_close_deliver_nothing (X := demo_externals true [])).
  reflexivity.
Defined.

Lemma async_on_event_survives_closure_witness :
  ∃ st' record,
    async_on_event (X := demo_externals true [])
      QUERY (Some []) "q1" false true open_state = (Ok tt, st')
    ∧ sent st' = sent (open_state (X := demo_externals true []))
    ∧ _closed st' = true
    ∧ log st' = log (open_state (X := demo_externals true [])) ++ [record]
    ∧ record
      = if _closed (open_state (X := demo_externals true []))
        then LogDebug "Received event after send channel closed. Ignoring."
        else LogException (X := demo_externals true [])
               "Tried sending SubProcess event %s after channel was closed"
               (Some QUERY).
Proof.
  eapply (async_on_event_survives_closure (X := demo_externals true [])).
  - reflexivity.
  - reflexivity.
  - by right.
Defined.

Definition closed_before_second_fragment : Schedule :=
  {| during_get_chat_engine := [];
     during_first_send := [];
     during_astream_chat := [];
     during_tokens := [([], []); ([EnvClose], [])];
     during_exhaustion := [];
     during_fallback_send := [] |}.

Definition closed_in_second_send : Schedule :=
  {| during_get_chat_engine := [];
     during_first_send := [];
     during_astream_chat := [];
     during_tokens := [([], []); ([], [EnvClose])];
     during_exhaustion := [];
     during_fallback_send := [] |}.

Lemma closure_between_fragments_stops_cleanly_witness :
  ∃ st',
    handle_chat_message (X := demo_externals true ["Hel"; "lo"])
      demo_conversation greeting 7 closed_before_second_fragment
      ([], open_state)
    = (Ok tt, (["get_storage_context"; "load"; "astream_chat"], st'))
    ∧ contents (sent st') = [] ++ snapshots EmptyString ["Hel"]
    ∧ last (log st')
      = Some (LogDebug
                "Received streamed token after send channel closed. Ignoring.").
Proof.
  eapply (closure_between_fragments_stops_cleanly
            (X := demo_externals true ["Hel"; "lo"])
            demo_conversation greeting 7 closed_before_second_fragment
            [] open_state _ _ ["Hel"] "lo" [] _ [] [EnvClose] []).
  - split; reflexivity.
  - constructor.
  - constructor.
  - constructor.
  - repeat constructor.
  - reflexivity.
  - left.
  - vm_compute. reflexivity.
  - reflexivity.
Defined.

Lemma closure_during_snapshot_send_raises_witness :
  ∃ st',
    handle_chat_message (X := demo_externals true ["Hel"; "lo"])
      demo_conversation greeting 7 closed_in_second_send ([], open_state)
    = (Raise ClosedResourceError,
       (["get_storage_context"; "load"; "astream_chat"], st'))
    ∧ contents (sent st') = [] ++ snapshots EmptyString ["Hel"].
Proof.
  eapply (closure_during_snapshot_send_raises
            (X := demo_externals true ["Hel"; "lo"])
            demo_conversation greeting 7 closed_in_second_send
            [] open_state _ _ ["Hel"] "lo" [] _ [] [] [EnvClose]).
  - split; reflexivity.
  - constructor.
  - constructor.
  - constructor.
  - repeat constructor.
  - reflexivity.
  - constructor.
  - left.
  - vm_compute. reflexivity.
  - reflexivity.
Defined.

Lemma engine_failure_propagates_witness :
  ∃ st',
    handle_chat_message (X := scripted_externals storage_down (Ok []))
      demo_conversation greeting 7 quiet_run ([], open_state)
    = (Raise HTTPError, (["get_storage_context"], st'))
    ∧ st' = close (run_env (during_get_chat_engine quiet_run)
                     (open_state
                        (X := scripted_externals storage_down (Ok []))))
    ∧ contents (sent st')
      = contents
          (sent (open_state (X := scripted_externals storage_down (Ok []))))
    ∧ _closed st' = true.
Proof.
  apply (engine_failure_propagates
           (X := scripted_externals storage_down (Ok []))
           demo_conversation greeting 7 quiet_run [] open_state).
  reflexivity.
Defined.

Lemma stream_request_failure_propagates_witness :
  ∃ st',
    handle_chat_message
      (X := scripted_externals all_stored (Raise HTTPError))
      demo_conversation greeting 7 quiet_run ([], open_state)
    = (Raise HTTPError,
       (["get_storage_context"; "load"; "astream_chat"], st'))
    ∧ contents (sent st') = []
    ∧ SubProcess {| event_id := uuid_str 7; has_ended := true;
                    source := CONSTRUCTED_QUERY_ENGINE;
                    metadata_map := None |} ∈ sent st'.
Proof.
  eapply (stream_request_failure_propagates
            (X := scripted_externals all_stored (Raise HTTPError))
            demo_conversation greeting 7 quiet_run [] open_state).
  - split; reflexivity.
  - constructor.
  - repeat constructor.
  - vm_compute. reflexivity.
  - reflexivity.
Defined.

Lemma snapshots_are_running_concatenations_witness :
  ∃ st' snaps,
    consume (X := demo_externals true ["Hel"; "lo"])
      ["Hel"; "lo"] [] EmptyString ([], open_state)
    = (Ok (Some (String.concat EmptyString ["Hel"; "lo"])), ([], st'))
    ∧ contents (sent st') = [] ++ snaps
    ∧ length snaps = length ["Hel"; "lo"]
    ∧ ∀ i, (i < length ["Hel"; "lo"])%nat →
           snaps !! i
           = Some (String.concat EmptyString (take (S i) ["Hel"; "lo"])).
Proof.
  apply (snapshots_are_running_concatenations
           (X := demo_externals true ["Hel"; "lo"])).
  - constructor.
  - split; reflexivity.
Defined.


